(** * gorm-logrus: the logrus adapter for gorm's logger interface

    A shallow embedding of [logger.go] and the properties of its
    operations: [New], [LogMode], [Info], [Warn], [Error] and [Trace].

    The adapter is a pointer-to-struct in Go, the logrus logger it
    forwards to is shared by pointer, and the trace callback is a closure
    run for its effect.  The embedding therefore threads an explicit
    [world]: the heap of adapter objects, what every logrus logger has
    been asked to log so far, and how often trace callbacks were run. *)

From Stdlib Require Import ZArith Ascii String List Bool Lia.
From Stdlib Require Import DecimalString.
From Stdlib Require Import Floats.SpecFloat.
From stdpp Require Import base option gmap strings list fin_maps.

Local Open Scope string_scope.
Local Open Scope Z_scope.

(* ===================================================================== *)
(** * Library values the adapter handles *)
(* ===================================================================== *)

(** ** Errors ([error], [errors.Is], [gorm.ErrRecordNotFound]) *)

(** A Go [error] value that is not nil.  [ErrRecordNotFound] is gorm's
    sentinel; it is a constructor of its own because Go compares error
    values by identity, so no [errors.New] value is equal to it, whatever
    its text.  [wrapError] is what [fmt.Errorf] with [%w] builds. *)
Inductive error : Type :=
| ErrRecordNotFound
| errorString (s : string)
| wrapError (msg : string) (err : error).

Fixpoint error_eqb (a b : error) : bool :=
  match a, b with
  | ErrRecordNotFound, ErrRecordNotFound => true
  | errorString s, errorString t => String.eqb s t
  | wrapError m a', wrapError n b' => String.eqb m n && error_eqb a' b'
  | _, _ => false
  end.

(** [errors.Is(err, target)]: [err] or an error in its [Unwrap] chain
    is [target]. *)
Fixpoint errors_Is (err target : error) : bool :=
  error_eqb err target ||
  match err with
  | wrapError _ inner => errors_Is inner target
  | _ => false
  end.

(** [err.Error()]. *)
Definition error_Error (e : error) : string :=
  match e with
  | ErrRecordNotFound => "record not found"
  | errorString s => s
  | wrapError msg _ => msg
  end.

(** ** Time ([time.Duration], [time.Since]) *)

(** A [time.Duration] is an int64 count of nanoseconds. *)
Definition Duration := Z.

Definition minDuration : Duration := - 2 ^ 63.
Definition maxDuration : Duration := 2 ^ 63 - 1.

Definition Microsecond : Duration := 1000.
Definition Millisecond : Duration := 1000 * Microsecond.
Definition Second : Duration := 1000 * Millisecond.

(** Instants are nanosecond readings of one clock.  [time.Since(begin)]
    is the reading now minus [begin]; Go saturates the difference at the
    ends of the int64 range instead of wrapping. *)
Definition time_Since (now begin : Z) : Duration :=
  let d := now - begin in
  if maxDuration <? d then maxDuration
  else if d <? minDuration then minDuration
  else d.

(** ** Decimal digits *)

(** The decimal numeral of an integer, with a leading [-] when negative
    (what [%v] prints for an int64). *)
Definition dec (n : Z) : string := NilZero.string_of_int (Z.to_int n).

(** [time.fmtFrac]: the fraction of [v / 10^prec] without trailing zeros
    (and without the point when the fraction is zero), written in front of
    [buf]; returns the text and [v / 10^prec]. *)
Fixpoint fmtFrac_loop (prec : nat) (v : Z) (print : bool) (buf : string)
  : string * Z * bool :=
  match prec with
  | O => (buf, v, print)
  | S prec' =>
      let digit := v mod 10 in
      let print := print || negb (digit =? 0) in
      let buf := if print then dec digit ++ buf else buf in
      fmtFrac_loop prec' (v / 10) print buf
  end.

Definition fmtFrac (buf : string) (v : Z) (prec : nat) : string * Z :=
  let '(buf, v, print) := fmtFrac_loop prec v false buf in
  (if print : bool then "." ++ buf else buf, v).

(** [time.fmtInt]: the decimal numeral of [v] written in front of [buf]. *)
Definition fmtInt (buf : string) (v : Z) : string := dec v ++ buf.

(** The two bytes of the micro sign in UTF-8. *)
Definition micro : string := String "194" (String "181" EmptyString).

(** [Duration.String()]: [u] is [uint64(d)], negated when [d] is
    negative, which is the absolute value for every int64. *)
Definition Duration_String (d : Duration) : string :=
  let u := Z.abs d in
  let neg := d <? 0 in
  let body :=
    if u <? Second then
      if u =? 0 then "0s"
      else if u <? Microsecond then
        let '(buf, u) := fmtFrac "ns" u 0 in fmtInt buf u
      else if u <? Millisecond then
        let '(buf, u) := fmtFrac (micro ++ "s") u 3 in fmtInt buf u
      else
        let '(buf, u) := fmtFrac "ms" u 6 in fmtInt buf u
    else
      let '(buf, u) := fmtFrac "s" u 9 in
      let buf := fmtInt buf (u mod 60) in
      let u := u / 60 in
      if 0 <? u then
        let buf := fmtInt ("m" ++ buf) (u mod 60) in
        let u := u / 60 in
        if 0 <? u then fmtInt ("h" ++ buf) u else buf
      else buf in
  if neg then "-" ++ body else body.

(** ** float64 *)

Definition float64 := spec_float.

(** IEEE 754 binary64: 53 bits of precision, exponents below 1024. *)
Definition float64_of_int64 (n : Z) : float64 :=
  binary_normalize 53 1024 n 0 false.

Definition float64_div (x y : float64) : float64 := SFdiv 53 1024 x y.

(** [strconv.FormatFloat(f, 'f', prec, 64)]: the exact value of [f]
    rounded to [prec] decimals, ties to the even digit. *)
Definition round_half_even (num den : Z) : Z :=
  let q := num / den in
  let r := num mod den in
  match 2 * r ?= den with
  | Lt => q
  | Eq => if Z.even q then q else q + 1
  | Gt => q + 1
  end.

(** The integer nearest to [m * 2^e * 10^prec]. *)
Definition scaled (prec : nat) (m e : Z) : Z :=
  if 0 <=? e then m * 2 ^ e * 10 ^ Z.of_nat prec
  else round_half_even (m * 10 ^ Z.of_nat prec) (2 ^ (- e)).

Fixpoint zeros (n : nat) : string :=
  match n with O => EmptyString | S n' => "0" ++ zeros n' end.

(** [n] written with at least [prec] digits. *)
Definition pad (prec : nat) (n : Z) : string :=
  let s := dec n in
  zeros (prec - String.length s) ++ s.

Definition fixed_digits (prec : nat) (n : Z) : string :=
  let p := 10 ^ Z.of_nat prec in
  dec (n / p) ++
  match prec with
  | O => EmptyString
  | _ => "." ++ pad prec (n mod p)
  end.

(** The sign is printed from the sign bit, also in front of a zero. *)
Definition sign (neg : bool) : string := if neg then "-" else EmptyString.

Definition FormatFloat_f (prec : nat) (f : float64) : string :=
  match f with
  | S754_nan => "NaN"
  | S754_infinity s => if s then "-Inf" else "+Inf"
  | S754_zero s => sign s ++ fixed_digits prec 0
  | S754_finite s m e => sign s ++ fixed_digits prec (scaled prec (Z.pos m) e)
  end.

(** ** Dynamic values and [fmt.Sprintf] *)

(** The dynamic types that reach an [interface{}] in this package. *)
Inductive value : Type :=
| VString (s : string)
| VInt64 (n : Z)
| VFloat64 (f : float64)
| VDuration (d : Duration)
| VError (e : error)
| VNil.

(** A format string is a sequence of literal runs and verbs, a verb with
    an optional precision ([%.3f]). *)
Inductive directive : Type :=
| DLit (c : ascii)
| DVerb (verb : ascii) (prec : option nat).

Inductive scan : Type :=
| InText
| InVerb
| InPrec (n : nat).

Definition is_digit (c : ascii) : bool :=
  (48 <=? nat_of_ascii c)%nat && (nat_of_ascii c <=? 57)%nat.

Fixpoint parse_format (st : scan) (fmt : string) : list directive :=
  match fmt with
  | EmptyString =>
      match st with
      | InText => []
      | _ => [DVerb "!" None]
      end
  | String c rest =>
      match st with
      | InText =>
          if Ascii.eqb c "%" then parse_format InVerb rest
          else DLit c :: parse_format InText rest
      | InVerb =>
          if Ascii.eqb c "%" then DLit "%" :: parse_format InText rest
          else if Ascii.eqb c "." then parse_format (InPrec 0) rest
          else DVerb c None :: parse_format InText rest
      | InPrec n =>
          if is_digit c
          then parse_format (InPrec (10 * n + (nat_of_ascii c - 48))) rest
          else DVerb c (Some n) :: parse_format InText rest
      end
  end.

(** What the model prints where Go's [fmt] reports a misuse ([%!v(...)])
    or where a verb and operand fall outside the fragment the package
    uses.  No format string of the package reaches it. *)
Definition unmodelled : string := "%!(UNMODELLED)".

(** One operand under one verb.  [%v] and [%s] print strings as they are
    and call [String()] and [Error()]; [%v] prints an int64 in decimal;
    [%f] prints a float64 with the given precision, 6 by default. *)
Definition fmt_verb (verb : ascii) (prec : option nat) (a : value) : string :=
  if Ascii.eqb verb "v" then
    match prec, a with
    | None, VString s => s
    | None, VInt64 n => dec n
    | None, VDuration d => Duration_String d
    | None, VError e => error_Error e
    | _, _ => unmodelled
    end
  else if Ascii.eqb verb "s" then
    match prec, a with
    | None, VString s => s
    | None, VDuration d => Duration_String d
    | None, VError e => error_Error e
    | _, _ => unmodelled
    end
  else if Ascii.eqb verb "f" then
    match a with
    | VFloat64 f => FormatFloat_f (default 6%nat prec) f
    | _ => unmodelled
    end
  else unmodelled.

Fixpoint render (ds : list directive) (args : list value) : string :=
  match ds with
  | [] =>
      match args with
      | [] => EmptyString
      | _ => unmodelled
      end
  | DLit c :: ds' => String c (render ds' args)
  | DVerb verb prec :: ds' =>
      match args with
      | [] => unmodelled ++ render ds' []
      | a :: args' => fmt_verb verb prec a ++ render ds' args'
      end
  end.

Definition Sprintf (format : string) (args : list value) : string :=
  render (parse_format InText format) args.

(* ===================================================================== *)
(** * The packages the adapter sits between *)
(* ===================================================================== *)

(** ** gorm.io/gorm/logger *)

Module logger.

(** [type LogLevel int], counted from [Silent = iota + 1]. *)
Definition level := Z.
Definition Silent : level := 1.
Definition Error : level := 2.
Definition Warn : level := 3.
Definition Info : level := 4.

(** [logger.Config], a plain struct of values.  The adapter reads
    [SlowThreshold] and [IgnoreRecordNotFoundError] and writes [LogLevel]. *)
Record Config : Type := {
  SlowThreshold : Duration;
  Colorful : bool;
  IgnoreRecordNotFoundError : bool;
  ParameterizedQueries : bool;
  LogLevel : level
}.

(** The zero value of the struct. *)
Definition zero : Config :=
  {| SlowThreshold := 0; Colorful := false;
     IgnoreRecordNotFoundError := false;
     ParameterizedQueries := false; LogLevel := 0 |}.

End logger.

(** ** github.com/sirupsen/logrus *)

(** [logrus.Level]. *)
Inductive Level : Type :=
| PanicLevel | FatalLevel | ErrorLevel | WarnLevel
| InfoLevel | DebugLevel | TraceLevel.

(** [context.Context] is passed through untouched. *)
Definition Context := nat.

(** [logrus.ErrorKey]. *)
Definition ErrorKey : string := "error".

(** What a logrus logger is asked to log by one [Infof], [Warnf],
    [Errorf] or [Debugf] on one of its entries: the level, the entry's
    context and fields, and the format with its operands.  ([logrus.Fields]
    is [map[string]interface{}].) *)
Record call : Type := {
  c_level : Level;
  c_ctx : Context;
  c_fields : gmap string value;
  c_format : string;
  c_args : list value
}.

(** The message logrus builds from a call: [fmt.Sprintf(format, args...)]. *)
Definition message (c : call) : string := Sprintf (c_format c) (c_args c).

(** [*logrus.Entry]: the logger it belongs to, its context, its fields. *)
Record Entry : Type := {
  e_logger : nat;
  e_ctx : Context;
  e_data : gmap string value
}.

(** [logrus.StandardLogger()] returns the package's one logger [std]. *)
Definition StandardLogger : nat := 0%nat.

(* ===================================================================== *)
(** * The adapter's types *)
(* ===================================================================== *)

(** A [*logrus.Logger] is [None] when nil and the logger's address
    otherwise. *)
Record options : Type := {
  opt_log : option nat;
  opt_cfg : logger.Config
}.

(** [type Option func(opt *options)].  [None] is the nil func; a closure
    is the change it makes to the [options] it is handed. *)
Definition Option : Type := option (options -> options).

Definition WithLogger (log : option nat) : Option :=
  Some (fun opt => {| opt_log := log; opt_cfg := opt_cfg opt |}).

Definition WithConfig (cfg : logger.Config) : Option :=
  Some (fun opt => {| opt_log := opt_log opt; opt_cfg := cfg |}).

Record Logger : Type := {
  log : option nat;
  cfg : logger.Config
}.

(** The callback of [Trace], [func() (string, int64)]: what it returns
    may depend on how many callbacks have run before it. *)
Definition callback : Type := nat -> string * Z.

(** What [Trace] reads from its surroundings: the clock, and the caller's
    position as [utils.FileWithLineNum()] reports it. *)
Record runtime : Type := {
  now : Z;
  FileWithLineNum : string
}.

(* ===================================================================== *)
(** * The world, and computations in it *)
(* ===================================================================== *)

Record world : Type := {
  heap : gmap nat Logger;        (* the adapters, by address *)
  sinks : gmap nat (list call);  (* per logrus logger, the calls so far *)
  invoked : nat                  (* callbacks run so far *)
}.

(** The calls logger [s] has received, oldest first. *)
Definition received (w : world) (s : nat) : list call :=
  default [] (sinks w !! s).

Inductive outcome (A : Type) : Type :=
| Ok (a : A)
| Panic.
Arguments Ok {A} a.
Arguments Panic {A}.

Definition M (A : Type) : Type := world -> world * outcome A.

Definition ret {A} (a : A) : M A := fun w => (w, Ok a).

Definition panic {A} : M A := fun w => (w, Panic).

Definition bind {A B} (m : M A) (k : A -> M B) : M B :=
  fun w =>
    match m w with
    | (w', Ok a) => k a w'
    | (w', Panic) => (w', Panic)
    end.

Notation "x <- m ;; k" := (bind m (fun x => k))
  (at level 100, m at next level, right associativity).

(** [*l]: reading through a nil pointer panics. *)
Definition load (l : nat) : M Logger :=
  fun w =>
    match heap w !! l with
    | Some v => (w, Ok v)
    | None => (w, Panic)
    end.

(** [&v] for a fresh [v]. *)
Definition alloc (v : Logger) : M nat :=
  fun w =>
    let l := fresh (dom (heap w)) in
    ({| heap := <[l := v]> (heap w); sinks := sinks w; invoked := invoked w |},
     Ok l).

(** [fc()]. *)
Definition call_fc (fc : callback) : M (string * Z) :=
  fun w =>
    ({| heap := heap w; sinks := sinks w; invoked := S (invoked w) |},
     Ok (fc (invoked w))).

(** [logger.WithContext(ctx)]: a new entry of the logger; a nil logger
    panics when its entry pool is read. *)
Definition WithContext (p : option nat) (ctx : Context) : M Entry :=
  match p with
  | None => panic
  | Some s => ret {| e_logger := s; e_ctx := ctx; e_data := ∅ |}
  end.

(** [entry.WithFields(fields)]: the entry with [fields] laid over its
    own. *)
Definition WithFields (e : Entry) (fields : gmap string value) : Entry :=
  {| e_logger := e_logger e; e_ctx := e_ctx e; e_data := fields ∪ e_data e |}.

(** [entry.Logf(level, format, args...)] as the logger sees it. *)
Definition Logf (level : Level) (e : Entry) (format : string)
    (args : list value) : M unit :=
  fun w =>
    let c := {| c_level := level; c_ctx := e_ctx e; c_fields := e_data e;
                c_format := format; c_args := args |} in
    ({| heap := heap w;
        sinks :=
          <[e_logger e := (received w (e_logger e) ++ [c])%list]> (sinks w);
        invoked := invoked w |},
     Ok tt).

Definition Debugf := Logf DebugLevel.
Definition Infof := Logf InfoLevel.
Definition Warnf := Logf WarnLevel.
Definition Errorf := Logf ErrorLevel.

(* ===================================================================== *)
(** * logger.go *)
(* ===================================================================== *)

(** [c.LogLevel = lvl] on a struct value [c]. *)
Definition set_LogLevel (c : logger.Config) (lvl : logger.level)
  : logger.Config :=
  {| logger.SlowThreshold := logger.SlowThreshold c;
     logger.Colorful := logger.Colorful c;
     logger.IgnoreRecordNotFoundError := logger.IgnoreRecordNotFoundError c;
     logger.ParameterizedQueries := logger.ParameterizedQueries c;
     logger.LogLevel := lvl |}.

(** [LogMode]: [newLogger := *l] copies the struct, the assignment changes
    the copy, and [&newLogger] is a new object. *)
Definition LogMode (l : nat) (level : logger.level) : M nat :=
  newLogger <- load l ;;
  let newLogger :=
    {| log := log newLogger;
       cfg := set_LogLevel (cfg newLogger) level |} in
  alloc newLogger.

Definition Info (l : nat) (ctx : Context) (msg : string) (data : list value)
  : M unit :=
  L <- load l ;;
  e <- WithContext (log L) ctx ;;
  Infof e msg data.

Definition Warn (l : nat) (ctx : Context) (msg : string) (data : list value)
  : M unit :=
  L <- load l ;;
  e <- WithContext (log L) ctx ;;
  Warnf e msg data.

Definition Error (l : nat) (ctx : Context) (msg : string) (data : list value)
  : M unit :=
  L <- load l ;;
  e <- WithContext (log L) ctx ;;
  Errorf e msg data.

(** An [error] interface value as an [interface{}]. *)
Definition value_of_error (err : option error) : value :=
  match err with
  | Some e => VError e
  | None => VNil
  end.

(** [float64(elapsed.Nanoseconds())/1e6]. *)
Definition milliseconds (elapsed : Duration) : float64 :=
  float64_div (float64_of_int64 elapsed) (float64_of_int64 1000000).

(** The three cases of the [switch] of [Trace], each with its [if] on
    [rows].  Conditions are evaluated left to right and [&&], [||] skip
    their right operand as in Go, so [l] is read only where Go reads it. *)
Definition Trace (rt : runtime) (l : nat) (ctx : Context) (begin : Z)
    (fc : callback) (err : option error) : M unit :=
  let elapsed := time_Since (now rt) begin in
  case1 <-
    match err with
    | None => ret false
    | Some e =>
        if negb (errors_Is e ErrRecordNotFound) then ret true
        else
          L <- load l ;;
          ret (negb (logger.IgnoreRecordNotFoundError (cfg L)))
    end ;;
  if case1 : bool then
    r <- call_fc fc ;;
    let '(sql, rows) := r in
    if rows =? -1 then
      L <- load l ;;
      e <- WithContext (log L) ctx ;;
      Errorf
        (WithFields e
           (<["file" := VString (FileWithLineNum rt)]>
              {[ ErrorKey := value_of_error err ]}))
        "[%.3fms] [rows:%v] %s"
        [VFloat64 (milliseconds elapsed); VString "-"; VString sql]
    else
      L <- load l ;;
      e <- WithContext (log L) ctx ;;
      Errorf
        (WithFields e
           (<["file" := VString (FileWithLineNum rt)]>
              {[ ErrorKey := value_of_error err ]}))
        "[%.3fms] [rows:%v] %s"
        [VFloat64 (milliseconds elapsed); VInt64 rows; VString sql]
  else
    case2 <-
      (L <- load l ;;
       if elapsed >? logger.SlowThreshold (cfg L) then
         L <- load l ;;
         ret (negb (logger.SlowThreshold (cfg L) =? 0))
       else ret false) ;;
    if case2 : bool then
      r <- call_fc fc ;;
      let '(sql, rows) := r in
      L <- load l ;;
      let slowLog :=
        Sprintf "SLOW SQL >= %v" [VDuration (logger.SlowThreshold (cfg L))] in
      if rows =? -1 then
        L <- load l ;;
        e <- WithContext (log L) ctx ;;
        Warnf
          (WithFields e
             (<["file" := VString (FileWithLineNum rt)]>
                {[ "slowLog" := VString slowLog ]}))
          "[%.3fms] [rows:%v] %s"
          [VFloat64 (milliseconds elapsed); VString "-"; VString sql]
      else
        L <- load l ;;
        e <- WithContext (log L) ctx ;;
        Warnf
          (WithFields e
             (<["file" := VString (FileWithLineNum rt)]>
                {[ "slowLog" := VString slowLog ]}))
          "[%.3fms] [rows:%v] %s"
          [VFloat64 (milliseconds elapsed); VInt64 rows; VString sql]
    else
      r <- call_fc fc ;;
      let '(sql, rows) := r in
      if rows =? -1 then
        L <- load l ;;
        e <- WithContext (log L) ctx ;;
        Debugf
          (WithFields e {[ "file" := VString (FileWithLineNum rt) ]})
          "[%.3fms] [rows:%v] %s"
          [VFloat64 (milliseconds elapsed); VString "-"; VString sql]
      else
        L <- load l ;;
        e <- WithContext (log L) ctx ;;
        Debugf
          (WithFields e {[ "file" := VString (FileWithLineNum rt) ]})
          "[%.3fms] [rows:%v] %s"
          [VFloat64 (milliseconds elapsed); VInt64 rows; VString sql].

(** [var opt options]: the zero value. *)
Definition zero_options : options :=
  {| opt_log := None; opt_cfg := logger.zero |}.

(** [for _, o := range opts { o(&opt) }]: calling a nil func panics. *)
Fixpoint apply_options (opts : list Option) (opt : options) : M options :=
  match opts with
  | [] => ret opt
  | o :: rest =>
      match o with
      | None => panic
      | Some f => apply_options rest (f opt)
      end
  end.

Definition New (opts : list Option) : M nat :=
  opt <- apply_options opts zero_options ;;
  let opt :=
    match opt_log opt with
    | None => {| opt_log := Some StandardLogger; opt_cfg := opt_cfg opt |}
    | Some _ => opt
    end in
  alloc {| log := opt_log opt; cfg := opt_cfg opt |}.

(* ===================================================================== *)
(** * What a run looks like from outside *)
(* ===================================================================== *)

(** The world after logger [s] has received [c]. *)
Definition sent (w : world) (s : nat) (c : call) : world :=
  {| heap := heap w;
     sinks := <[s := (received w s ++ [c])%list]> (sinks w);
     invoked := invoked w |}.

(** The world after one more callback has run. *)
Definition ran_fc (w : world) : world :=
  {| heap := heap w; sinks := sinks w; invoked := S (invoked w) |}.

(** The world after [v] has been put at a fresh address. *)
Definition allocated (w : world) (v : Logger) : world :=
  {| heap := <[fresh (dom (heap w)) := v]> (heap w);
     sinks := sinks w; invoked := invoked w |}.

(** [m], run in [w], returns normally, and all it has done to the loggers
    is to send the one call [c] to logger [s]; no adapter has changed. *)
Definition emits (m : M unit) (w : world) (s : nat) (c : call) : Prop :=
  exists w',
    m w = (w', Ok tt) /\
    heap w' = heap w /\
    received w' s = (received w s ++ [c])%list /\
    forall s', s' <> s -> received w' s' = received w s'.

(** The first condition of the [switch] of [Trace]. *)
Definition error_case (L : Logger) (err : option error) : bool :=
  match err with
  | None => false
  | Some e =>
      negb (errors_Is e ErrRecordNotFound) ||
      negb (logger.IgnoreRecordNotFoundError (cfg L))
  end.

(** The second condition. *)
Definition slow_case (L : Logger) (elapsed : Duration) : bool :=
  (elapsed >? logger.SlowThreshold (cfg L)) &&
  negb (logger.SlowThreshold (cfg L) =? 0).

(** The operand printed for the row count. *)
Definition rows_operand (rows : Z) : value :=
  if rows =? -1 then VString "-" else VInt64 rows.

(** The call [Trace] makes, read off its three cases. *)
Definition trace_call (rt : runtime) (L : Logger) (ctx : Context)
    (begin : Z) (r : string * Z) (err : option error) : call :=
  let elapsed := time_Since (now rt) begin in
  let file := VString (FileWithLineNum rt) in
  let args := [VFloat64 (milliseconds elapsed); rows_operand (snd r);
               VString (fst r)] in
  if error_case L err then
    {| c_level := ErrorLevel; c_ctx := ctx;
       c_fields := <["file" := file]> {[ ErrorKey := value_of_error err ]};
       c_format := "[%.3fms] [rows:%v] %s"; c_args := args |}
  else if slow_case L elapsed then
    {| c_level := WarnLevel; c_ctx := ctx;
       c_fields :=
         <["file" := file]>
           {[ "slowLog" :=
                VString ("SLOW SQL >= " ++
                         Duration_String (logger.SlowThreshold (cfg L))) ]};
       c_format := "[%.3fms] [rows:%v] %s"; c_args := args |}
  else
    {| c_level := DebugLevel; c_ctx := ctx;
       c_fields := {[ "file" := file ]};
       c_format := "[%.3fms] [rows:%v] %s"; c_args := args |}.

(** [f] is zero, or finite and of magnitude below [2^B]. *)
Definition below (B : Z) (f : float64) : Prop :=
  match f with
  | S754_zero _ => True
  | S754_finite _ m e => Zdigits2 (Z.pos m) + e <= B /\ e <= B
  | _ => False
  end.

Definition all_digits (s : string) : bool :=
  forallb is_digit (list_ascii_of_string s).

(** [s] is a decimal numeral with exactly [n] digits after the point. *)
Definition has_decimals (n : nat) (s : string) : Prop :=
  exists (neg : bool) (ip : Z) (frac : string),
    s = sign neg ++ dec ip ++ "." ++ frac /\
    0 <= ip /\
    String.length frac = n /\
    all_digits frac = true.

(** An argument of [New] written with one of the package's two
    constructors. *)
Inductive option_expr : Type :=
| CallWithLogger (log : option nat)
| CallWithConfig (cfg : logger.Config).

Definition build (e : option_expr) : Option :=
  match e with
  | CallWithLogger p => WithLogger p
  | CallWithConfig c => WithConfig c
  end.

(** The operand of the last [WithLogger] of a sequence, if it has one. *)
Fixpoint last_WithLogger (es : list option_expr) : option (option nat) :=
  match es with
  | [] => None
  | e :: rest =>
      match last_WithLogger rest with
      | Some p => Some p
      | None =>
          match e with
          | CallWithLogger p => Some p
          | CallWithConfig _ => None
          end
      end
  end.

(** The operand of the last [WithConfig] of a sequence, if it has one. *)
Fixpoint last_WithConfig (es : list option_expr) : option logger.Config :=
  match es with
  | [] => None
  | e :: rest =>
      match last_WithConfig rest with
      | Some c => Some c
      | None =>
          match e with
          | CallWithConfig c => Some c
          | CallWithLogger _ => None
          end
      end
  end.

(** [e] after [fmt.Errorf] has wrapped it with [%w] once per message, the
    first message outermost. *)
Definition wrapped (msgs : list string) (e : error) : error :=
  fold_right wrapError e msgs.

(** The sign bit of a float64 ([false] for a NaN). *)
Definition negative (f : float64) : bool :=
  match f with
  | S754_zero s | S754_infinity s | S754_finite s _ _ => s
  | S754_nan => false
  end.

(** The world in which the adapter at [l] has configuration [c]. *)
Definition reconfigured (w : world) (l : nat) (c : logger.Config) : world :=
  {| heap := alter (fun L => {| log := log L; cfg := c |}) l (heap w);
     sinks := sinks w; invoked := invoked w |}.

(** An option written with [WithLogger]. *)
Definition is_WithLogger (e : option_expr) : Prop :=
  match e with
  | CallWithLogger _ => True
  | CallWithConfig _ => False
  end.

(** ** Sample values *)

Definition sample_cfg : logger.Config :=
  {| logger.SlowThreshold := 100 * Millisecond;
     logger.Colorful := false;
     logger.IgnoreRecordNotFoundError := true;
     logger.ParameterizedQueries := false;
     logger.LogLevel := logger.Silent |}.

(** An adapter that forwards to logger 7. *)
Definition sample_adapter : Logger :=
  {| log := Some 7%nat; cfg := sample_cfg |}.

(** A world whose one adapter lives at address 1. *)
Definition sample_world : world :=
  {| heap := {[ 1%nat := sample_adapter ]}; sinks := ∅; invoked := 0 |}.

(** The same with a threshold below zero. *)
Definition negative_cfg : logger.Config :=
  {| logger.SlowThreshold := - (100 * Millisecond);
     logger.Colorful := false;
     logger.IgnoreRecordNotFoundError := true;
     logger.ParameterizedQueries := false;
     logger.LogLevel := logger.Info |}.

Definition negative_world : world :=
  {| heap := {[ 1%nat := {| log := Some 7%nat; cfg := negative_cfg |} ]};
     sinks := ∅; invoked := 0 |}.

(** A clock reading [elapsed] nanoseconds after a statement begun at 0. *)
Definition sample_rt (elapsed : Z) : runtime :=
  {| now := elapsed; FileWithLineNum := "/app/main.go:42" |}.

Definition sample_fc : callback := fun _ => ("SELECT * FROM users", 3).

(** The sample configuration at level [Info], in colour. *)
Definition loud_cfg : logger.Config :=
  {| logger.SlowThreshold := 100 * Millisecond;
     logger.Colorful := true;
     logger.IgnoreRecordNotFoundError := true;
     logger.ParameterizedQueries := true;
     logger.LogLevel := logger.Info |}.

(** The zero value [Logger{}], which has no logger, at address 1. *)
Definition zero_adapter : Logger := {| log := None; cfg := logger.zero |}.

Definition zero_world : world :=
  {| heap := {[ 1%nat := zero_adapter ]}; sinks := ∅; invoked := 0 |}.

(* ===================================================================== *)
(** * Lemmas on the monad and the world *)
(* ===================================================================== *)

Lemma bind_ret {A B} (a : A) (k : A -> M B) (w : world) :
  bind (ret a) k w = k a w.
Proof. reflexivity. Qed.

Lemma bind_load {B} (l : nat) (L : Logger) (k : Logger -> M B) (w : world) :
  heap w !! l = Some L ->
  bind (load l) k w = k L w.
Proof. intros H. unfold bind, load. rewrite H. reflexivity. Qed.

Lemma bind_load_nil {B} (l : nat) (k : Logger -> M B) (w : world) :
  heap w !! l = None ->
  bind (load l) k w = (w, Panic).
Proof. intros H. unfold bind, load. rewrite H. reflexivity. Qed.

Lemma bind_call_fc {B} (fc : callback) (k : string * Z -> M B) (w : world) :
  bind (call_fc fc) k w = k (fc (invoked w)) (ran_fc w).
Proof. reflexivity. Qed.

Lemma bind_WithContext {B} (s : nat) (ctx : Context) (k : Entry -> M B)
    (w : world) :
  bind (WithContext (Some s) ctx) k w =
  k {| e_logger := s; e_ctx := ctx; e_data := ∅ |} w.
Proof. reflexivity. Qed.

Lemma bind_WithContext_nil {B} (ctx : Context) (k : Entry -> M B) (w : world) :
  bind (WithContext None ctx) k w = (w, Panic).
Proof. reflexivity. Qed.

Lemma Logf_sent (level : Level) (e : Entry) (format : string)
    (args : list value) (w : world) :
  Logf level e format args w =
  (sent w (e_logger e)
     {| c_level := level; c_ctx := e_ctx e; c_fields := e_data e;
        c_format := format; c_args := args |},
   Ok tt).
Proof. reflexivity. Qed.

Lemma WithFields_fresh (s : nat) (ctx : Context) (fields : gmap string value) :
  WithFields {| e_logger := s; e_ctx := ctx; e_data := ∅ |} fields =
  {| e_logger := s; e_ctx := ctx; e_data := fields |}.
Proof. unfold WithFields; simpl. f_equal. apply map_union_empty. Qed.

Lemma received_sent (w : world) (s : nat) (c : call) :
  received (sent w s c) s = (received w s ++ [c])%list.
Proof.
  unfold received at 1, sent; simpl. rewrite lookup_insert_eq. reflexivity.
Qed.

Lemma received_sent_ne (w : world) (s s' : nat) (c : call) :
  s' <> s -> received (sent w s c) s' = received w s'.
Proof.
  intros Hne. unfold received, sent; simpl.
  rewrite lookup_insert_ne by congruence. reflexivity.
Qed.

Lemma heap_fresh (w : world) : heap w !! fresh (dom (heap w)) = None.
Proof. apply not_elem_of_dom, is_fresh. Qed.

Lemma alloc_allocated (v : Logger) (w : world) :
  alloc v w = (allocated w v, Ok (fresh (dom (heap w)))).
Proof. reflexivity. Qed.

(** An operation that ends in one send emits that call. *)
Lemma emits_sent (m : M unit) (w : world) (s : nat) (c : call) :
  m w = (sent w s c, Ok tt) -> emits m w s c.
Proof.
  intros H. exists (sent w s c). split; [exact H|].
  split; [reflexivity|]. split; [apply received_sent|].
  intros s' Hne. apply received_sent_ne, Hne.
Qed.

Lemma emits_sent_ran_fc (m : M unit) (w : world) (s : nat) (c : call) :
  m w = (sent (ran_fc w) s c, Ok tt) -> emits m w s c.
Proof.
  intros H. exists (sent (ran_fc w) s c). split; [exact H|].
  split; [reflexivity|]. split; [apply (received_sent (ran_fc w))|].
  intros s' Hne. apply (received_sent_ne (ran_fc w)), Hne.
Qed.

(** What is emitted is determined by the run. *)
Lemma emits_inj (m : M unit) (w : world) (s : nat) (c c' : call) :
  emits m w s c -> emits m w s c' -> c = c'.
Proof.
  intros (w1 & H1 & _ & R1 & _) (w2 & H2 & _ & R2 & _).
  rewrite H1 in H2. injection H2 as <-. rewrite R1 in R2.
  apply app_inv_head in R2. congruence.
Qed.

(* ===================================================================== *)
(** * Lemmas on float64: the elapsed milliseconds are a finite number *)
(* ===================================================================== *)

Lemma digits2_pos_size (p : positive) : digits2_pos p = Pos.size p.
Proof. induction p; simpl; congruence. Qed.

Lemma Zdigits2_nonneg (m : Z) : 0 <= Zdigits2 m.
Proof. destruct m; simpl; lia. Qed.

Lemma Zdigits2_gt (m : Z) : 0 <= m -> m < 2 ^ Zdigits2 m.
Proof.
  intros Hm. destruct m as [|p|p]; [reflexivity| |lia].
  simpl Zdigits2. rewrite digits2_pos_size.
  pose proof (Pos.size_gt p) as H.
  apply Pos2Z.pos_lt_pos in H. rewrite Pos2Z.inj_pow in H. exact H.
Qed.

Lemma Zdigits2_le (m k : Z) : 0 <= m -> 0 <= k -> m < 2 ^ k -> Zdigits2 m <= k.
Proof.
  intros Hm Hk Hlt. destruct m as [|p|p]; [exact Hk| |lia].
  simpl Zdigits2. rewrite digits2_pos_size.
  pose proof (Pos.size_le p) as H.
  apply Pos2Z.pos_le_pos in H. rewrite Pos2Z.inj_pow in H.
  assert (H2 : 2 ^ Z.pos (Pos.size p) < 2 ^ (k + 1)).
  { rewrite Z.pow_add_r by lia.
    change (Z.pos p~0) with (2 * Z.pos p) in H. lia. }
  apply Z.pow_lt_mono_r_iff in H2; lia.
Qed.

Lemma shr_1_div2 (mrs : shr_record) :
  0 <= shr_m mrs -> shr_m (shr_1 mrs) = shr_m mrs / 2.
Proof.
  destruct mrs as [m r s]; cbn [shr_m]. intros Hm.
  rewrite <- Z.div2_div.
  destruct m as [|[p|p|]|p]; try reflexivity; lia.
Qed.

Lemma iter_shr_1 (p : positive) (mrs : shr_record) :
  0 <= shr_m mrs ->
  shr_m (SpecFloat.iter_pos shr_1 p mrs) = shr_m mrs / 2 ^ Z.pos p.
Proof.
  revert mrs. induction p as [p IH|p IH|]; intros mrs Hm;
    cbn [SpecFloat.iter_pos].
  - assert (H1 : 0 <= shr_m (shr_1 mrs)).
    { rewrite shr_1_div2 by exact Hm. apply Z.div_pos; lia. }
    assert (H2 : 0 <= shr_m (SpecFloat.iter_pos shr_1 p (shr_1 mrs))).
    { rewrite IH by exact H1. apply Z.div_pos; [exact H1 | lia]. }
    rewrite IH by exact H2. rewrite IH by exact H1.
    rewrite shr_1_div2 by exact Hm.
    rewrite !Z.div_div by lia.
    f_equal. rewrite Pos2Z.inj_xI, Z.pow_add_r, Z.pow_mul_r by lia.
    change (2 ^ 2) with 4. change (2 ^ 1) with 2.
    replace (4 ^ Z.pos p) with (2 ^ Z.pos p * 2 ^ Z.pos p); [lia|].
    rewrite <- Z.pow_add_r by lia.
    replace (Z.pos p + Z.pos p) with (2 * Z.pos p) by lia.
    rewrite Z.pow_mul_r by lia. reflexivity.
  - assert (H2 : 0 <= shr_m (SpecFloat.iter_pos shr_1 p mrs)).
    { rewrite IH by exact Hm. apply Z.div_pos; [exact Hm | lia]. }
    rewrite IH by exact H2. rewrite IH by exact Hm.
    rewrite !Z.div_div by lia.
    f_equal. rewrite Pos2Z.inj_xO, <- Z.pow_add_r by lia. f_equal. lia.
  - apply shr_1_div2, Hm.
Qed.

Lemma fexp_64 (e : Z) : fexp 53 1024 e = Z.max (e - 53) (-1074).
Proof. reflexivity. Qed.

Lemma shr_m_of_loc (m : Z) (l : location) : shr_m (shr_record_of_loc m l) = m.
Proof. destruct l as [|[]]; reflexivity. Qed.

Lemma div_pow2_digits (m n : Z) :
  0 <= m -> 0 < n ->
  Zdigits2 (m / 2 ^ n) <= Z.max 0 (Zdigits2 m - n).
Proof.
  intros Hm Hn.
  pose proof (Zdigits2_gt m Hm) as Hlt.
  pose proof (Zdigits2_nonneg m) as HD.
  assert (Hq : 0 <= m / 2 ^ n) by (apply Z.div_pos; lia).
  destruct (Z_le_gt_dec n (Zdigits2 m)) as [Hle | Hgt].
  - apply Zdigits2_le; [exact Hq | lia |].
    rewrite Z.max_r by lia.
    apply Z.div_lt_upper_bound; [lia|].
    rewrite <- Z.pow_add_r by lia.
    replace (n + (Zdigits2 m - n)) with (Zdigits2 m) by lia. exact Hlt.
  - rewrite Z.div_small; [simpl; lia|].
    split; [exact Hm|].
    assert (2 ^ Zdigits2 m <= 2 ^ n) by (apply Z.pow_le_mono_r; lia). lia.
Qed.

Lemma shr_fexp_bound (m e : Z) (l : location) (B : Z) :
  0 <= m -> Zdigits2 m + e <= B -> e <= B -> -1074 <= B ->
  0 <= shr_m (fst (shr_fexp 53 1024 m e l)) /\
  Zdigits2 (shr_m (fst (shr_fexp 53 1024 m e l))) +
    snd (shr_fexp 53 1024 m e l) <= B /\
  snd (shr_fexp 53 1024 m e l) <= B.
Proof.
  intros Hm HD He HB. unfold shr_fexp, shr. rewrite fexp_64.
  destruct (Z.max (Zdigits2 m + e - 53) (-1074) - e) as [|n|n] eqn:Hn;
    cbn [fst snd]; rewrite ?shr_m_of_loc; try (repeat split; lia).
  rewrite iter_shr_1 by (rewrite shr_m_of_loc; exact Hm).
  rewrite shr_m_of_loc.
  pose proof (div_pow2_digits m (Z.pos n) Hm ltac:(lia)) as Hdig.
  split; [apply Z.div_pos; lia|]. lia.
Qed.

Lemma round_nearest_even_bound (m : Z) (l : location) :
  m <= round_nearest_even m l <= m + 1.
Proof.
  unfold round_nearest_even. destruct l as [|[]]; try lia.
  destruct (Z.even m); lia.
Qed.

Lemma Zdigits2_succ (m m' : Z) :
  0 <= m -> m <= m' <= m + 1 -> Zdigits2 m' <= Zdigits2 m + 1.
Proof.
  intros Hm Hm'. pose proof (Zdigits2_gt m Hm). pose proof (Zdigits2_nonneg m).
  apply Zdigits2_le; [lia | lia |].
  rewrite Z.pow_add_r by lia. lia.
Qed.

Lemma binary_round_aux_below (sx : bool) (mx ex : Z) (lx : location) (B : Z) :
  0 <= mx -> Zdigits2 mx + ex <= B -> ex <= B -> -1074 <= B -> B + 1 <= 971 ->
  below (B + 1) (binary_round_aux 53 1024 sx mx ex lx).
Proof.
  intros Hm HD He HB Hmax. unfold binary_round_aux.
  destruct (shr_fexp_bound mx ex lx B Hm HD He HB) as (H1 & H2 & H3).
  destruct (shr_fexp 53 1024 mx ex lx) as [mrs' e'] eqn:E1. cbn [fst snd] in *.
  set (m1 := round_nearest_even (shr_m mrs') (loc_of_shr_record mrs')).
  pose proof (round_nearest_even_bound (shr_m mrs')
                (loc_of_shr_record mrs')) as Hr.
  fold m1 in Hr.
  pose proof (Zdigits2_succ (shr_m mrs') m1 H1 Hr) as Hd1.
  destruct (shr_fexp_bound m1 e' loc_Exact (B + 1)) as (K1 & K2 & K3); try lia.
  destruct (shr_fexp 53 1024 m1 e' loc_Exact) as [mrs'' e''] eqn:E2.
  cbn [fst snd] in *.
  destruct (shr_m mrs'') as [|p|p] eqn:Ep; [exact I| |lia].
  replace (e'' <=? 1024 - 53) with true by (symmetry; apply Z.leb_le; lia).
  split; [exact K2 | exact K3].
Qed.

Lemma iter_xO (p d : positive) :
  Z.pos (Pos.iter xO p d) = Z.pos p * 2 ^ Z.pos d.
Proof.
  apply (Pos.iter_ind _ xO p (fun d r => Z.pos r = Z.pos p * 2 ^ Z.pos d)).
  - change (2 ^ 1) with 2. lia.
  - intros q r IH.
    rewrite Pos2Z.inj_xO, IH, Pos2Z.inj_succ, Z.pow_succ_r by lia. lia.
Qed.

Lemma binary_round_below (sx : bool) (mx : positive) (ex B : Z) :
  Zdigits2 (Z.pos mx) + ex <= B -> ex <= B -> -1074 <= B -> B + 1 <= 971 ->
  below (B + 1) (binary_round 53 1024 sx mx ex).
Proof.
  intros HD He HB Hmax. unfold binary_round, shl_align.
  change (Z.pos (digits2_pos mx)) with (Zdigits2 (Z.pos mx)).
  destruct (fexp 53 1024 (Zdigits2 (Z.pos mx) + ex) - ex) as [|d|d] eqn:Hd;
    try (apply binary_round_aux_below; lia).
  apply binary_round_aux_below; try lia.
  assert (Hz : Zdigits2 (Z.pos (Pos.iter xO mx d))
               <= Zdigits2 (Z.pos mx) + Z.pos d).
  { pose proof (Zdigits2_gt (Z.pos mx) ltac:(lia)).
    pose proof (Zdigits2_nonneg (Z.pos mx)).
    apply Zdigits2_le; [lia | lia |].
    rewrite iter_xO, Z.pow_add_r by lia.
    apply Z.mul_lt_mono_pos_r; lia. }
  lia.
Qed.

Lemma float64_of_int64_below (n : Z) :
  - 2 ^ 63 <= n <= 2 ^ 63 - 1 -> below 65 (float64_of_int64 n).
Proof.
  intros Hn. unfold float64_of_int64, binary_normalize.
  destruct n as [|p|p]; [exact I| |];
    apply (binary_round_below _ p 0 64); try lia.
  - assert (Zdigits2 (Z.pos p) <= 64); [|lia].
    apply Zdigits2_le; lia.
  - assert (Zdigits2 (Z.pos p) <= 64); [|lia].
    apply Zdigits2_le; lia.
Qed.

Lemma milliseconds_below (d : Z) :
  - 2 ^ 63 <= d <= 2 ^ 63 - 1 -> below 99 (milliseconds d).
Proof.
  intros Hd. unfold milliseconds, float64_div.
  pose proof (float64_of_int64_below d Hd) as Hx.
  let y := eval vm_compute in (float64_of_int64 1000000) in
  change (float64_of_int64 1000000) with y.
  destruct (float64_of_int64 d) as [s| | |s m e]; try contradiction;
    [exact I|].
  destruct Hx as [Hx1 Hx2].
  unfold SFdiv, SFdiv_core_binary.
  set (d1 := Zdigits2 (Z.pos m)) in *.
  set (my := 8589934592000000%positive).
  change (Zdigits2 (Z.pos my)) with 53.
  set (e' := Z.min (fexp 53 1024 (d1 + e - (53 + -33))) (e - -33)).
  set (m' := match e - -33 - e' with
             | 0 => Z.pos m
             | Z.pos _ => Z.shiftl (Z.pos m) (e - -33 - e')
             | Z.neg _ => 0
             end).
  assert (Hs : 0 <= e - -33 - e') by lia.
  assert (Hm' : m' = Z.pos m * 2 ^ (e - -33 - e')).
  { unfold m'. destruct (e - -33 - e') as [|p|p] eqn:Es.
    - rewrite Z.mul_1_r. reflexivity.
    - rewrite Z.shiftl_mul_pow2 by lia. reflexivity.
    - lia. }
  pose proof (Z.div_eucl_eq m' (Z.pos my) ltac:(lia)) as Heq.
  pose proof (Z.mod_pos_bound m' (Z.pos my) ltac:(lia)) as Hmod.
  unfold Z.modulo in Hmod.
  destruct (Z.div_eucl m' (Z.pos my)) as [q r].
  assert (Hm'pos : 0 <= m') by (rewrite Hm'; apply Z.mul_nonneg_nonneg; lia).
  assert (Hq : 0 <= q) by nia.
  assert (Hqm : q <= m') by nia.
  apply (binary_round_aux_below _ q e' _ 98); try lia.
  assert (Zdigits2 q <= d1 + (e - -33 - e')); [|lia].
  pose proof (Zdigits2_gt (Z.pos m) ltac:(lia)) as Hg. fold d1 in Hg.
  pose proof (Zdigits2_nonneg (Z.pos m)) as Hn. fold d1 in Hn.
  apply Zdigits2_le; [lia | lia |].
  rewrite Z.pow_add_r by lia.
  assert (m' < 2 ^ d1 * 2 ^ (e - -33 - e')).
  { rewrite Hm'. apply Z.mul_lt_mono_pos_r; lia. }
  lia.
Qed.

Lemma time_Since_range (now begin : Z) :
  minDuration <= time_Since now begin <= maxDuration.
Proof.
  unfold time_Since, minDuration, maxDuration.
  destruct (2 ^ 63 - 1 <? now - begin) eqn:Hhi; [lia|].
  destruct (now - begin <? - 2 ^ 63) eqn:Hlo; lia.
Qed.

Lemma round_half_even_nonneg (num den : Z) :
  0 <= num -> 0 < den -> 0 <= round_half_even num den.
Proof.
  intros Hn Hd. unfold round_half_even.
  assert (0 <= num / den) by (apply Z.div_pos; lia).
  destruct (2 * (num mod den) ?= den); [destruct (Z.even _)| |]; lia.
Qed.

Lemma scaled_nonneg (prec : nat) (m : positive) (e : Z) :
  0 <= scaled prec (Z.pos m) e.
Proof.
  unfold scaled. destruct (0 <=? e) eqn:He.
  - apply Z.leb_le in He.
    assert (0 < 2 ^ e) by (apply Z.pow_pos_nonneg; lia).
    assert (0 < 10 ^ Z.of_nat prec) by (apply Z.pow_pos_nonneg; lia).
    nia.
  - apply Z.leb_gt in He.
    assert (0 < 10 ^ Z.of_nat prec) by (apply Z.pow_pos_nonneg; lia).
    apply round_half_even_nonneg; [nia|].
    apply Z.pow_pos_nonneg; lia.
Qed.

(** All thousand cases of the three digits after the point. *)
Lemma pad_3_digits (k : Z) :
  0 <= k < 1000 ->
  String.length (pad 3 k) = 3%nat /\ all_digits (pad 3 k) = true.
Proof.
  intros Hk.
  assert (Hall : forallb
            (fun n => Nat.eqb (String.length (pad 3 (Z.of_nat n))) 3 &&
                      all_digits (pad 3 (Z.of_nat n)))
            (seq 0 1000) = true) by (vm_compute; reflexivity).
  rewrite forallb_forall in Hall.
  specialize (Hall (Z.to_nat k)).
  rewrite Z2Nat.id in Hall by lia.
  apply andb_true_iff in Hall.
  - destruct Hall as [Hlen Hdig]. apply Nat.eqb_eq in Hlen. split; assumption.
  - apply in_seq. lia.
Qed.

Lemma fixed_digits_3 (neg : bool) (n : Z) :
  0 <= n ->
  has_decimals 3 (sign neg ++ fixed_digits 3 n).
Proof.
  intros Hn. exists neg, (n / 1000), (pad 3 (n mod 1000)).
  split; [reflexivity|].
  split; [apply Z.div_pos; lia|].
  apply pad_3_digits, Z.mod_pos_bound. lia.
Qed.

(** A finite float64 printed with [%.3f] has three decimals. *)
Lemma FormatFloat_f_3_decimals (B : Z) (f : float64) :
  below B f -> has_decimals 3 (FormatFloat_f 3 f).
Proof.
  destruct f as [s|s| |s m e]; try contradiction; intros _;
    unfold FormatFloat_f; apply fixed_digits_3; [lia | apply scaled_nonneg].
Qed.

(* ===================================================================== *)
(** * Lemmas on the operations *)
(* ===================================================================== *)

Lemma append_empty_r (s : string) : s ++ EmptyString = s.
Proof.
  induction s as [|c s IH]; [reflexivity|].
  change (String c (s ++ EmptyString) = String c s). now rewrite IH.
Qed.

(** Computes the directives of a closed format string. *)
Ltac parse_closed_format :=
  unfold Sprintf;
  match goal with
  | |- context [parse_format InText ?f] =>
      let ds := eval vm_compute in (parse_format InText f) in
      change (parse_format InText f) with ds
  end;
  cbn [render].

Lemma fmt_verb_v_Duration (d : Duration) :
  fmt_verb "v" None (VDuration d) = Duration_String d.
Proof. reflexivity. Qed.

Lemma fmt_verb_v_String (s : string) : fmt_verb "v" None (VString s) = s.
Proof. reflexivity. Qed.

Lemma fmt_verb_v_Int64 (n : Z) : fmt_verb "v" None (VInt64 n) = dec n.
Proof. reflexivity. Qed.

Lemma fmt_verb_s_String (s : string) : fmt_verb "s" None (VString s) = s.
Proof. reflexivity. Qed.

Lemma fmt_verb_f_Float64 (p : nat) (f : float64) :
  fmt_verb "f" (Some p) (VFloat64 f) = FormatFloat_f p f.
Proof. reflexivity. Qed.

Lemma Sprintf_slowLog (d : Duration) :
  Sprintf "SLOW SQL >= %v" [VDuration d] = "SLOW SQL >= " ++ Duration_String d.
Proof.
  parse_closed_format.
  rewrite fmt_verb_v_Duration, append_empty_r. reflexivity.
Qed.

(** The message of a trace call, for any operands of the three kinds. *)
Lemma Sprintf_trace (f : float64) (rows : Z) (sql : string) :
  Sprintf "[%.3fms] [rows:%v] %s" [VFloat64 f; rows_operand rows; VString sql] =
  "[" ++ FormatFloat_f 3 f ++ "ms] [rows:" ++
  (if rows =? -1 then "-" else dec rows) ++ "] " ++ sql.
Proof.
  parse_closed_format.
  rewrite fmt_verb_f_Float64, fmt_verb_s_String, append_empty_r.
  unfold rows_operand.
  destruct (rows =? -1);
    [rewrite fmt_verb_v_String | rewrite fmt_verb_v_Int64]; reflexivity.
Qed.

Lemma bind_bind {A B C} (m : M A) (k1 : A -> M B) (k2 : B -> M C) (w : world) :
  bind (bind m k1) k2 w = bind m (fun a => bind (k1 a) k2) w.
Proof.
  unfold bind. destruct (m w) as [w' [a|]]; reflexivity.
Qed.

(** Runs the steps of an operation: reads the receiver through a
    hypothesis on the heap, and replaces every condition, logger and
    callback result a hypothesis gives the value of. *)
Ltac run_steps :=
  repeat first
    [ rewrite bind_bind
    | rewrite bind_ret
    | match goal with
      | H : heap ?w !! ?l = Some _ |- context [bind (load ?l) _ ?w] =>
          rewrite (bind_load _ _ _ _ H)
      | H : heap ?w !! ?l = None |- context [bind (load ?l) _ ?w] =>
          rewrite (bind_load_nil _ _ _ H)
      end
    | rewrite bind_call_fc
    | rewrite bind_WithContext
    | rewrite bind_WithContext_nil
    | rewrite WithFields_fresh
    | rewrite Sprintf_slowLog
    | match goal with
      | H : ?c = _ |- context [?c] => rewrite H
      end
    | progress cbn beta iota
    | progress cbn [negb orb andb fst snd] ].

(** [Trace] on an adapter that has a logger. *)
Lemma Trace_run (rt : runtime) (l : nat) (L : Logger) (s : nat)
    (ctx : Context) (begin : Z) (fc : callback) (err : option error)
    (w : world) :
  heap w !! l = Some L ->
  log L = Some s ->
  Trace rt l ctx begin fc err w =
  (sent (ran_fc w) s (trace_call rt L ctx begin (fc (invoked w)) err), Ok tt).
Proof.
  intros Hl Hs.
  assert (Hl' : heap (ran_fc w) !! l = Some L) by exact Hl.
  destruct (fc (invoked w)) as [sql rows] eqn:Hfc.
  unfold Trace, trace_call, error_case, slow_case, rows_operand.
  unfold Errorf, Warnf, Debugf.
  destruct (time_Since (now rt) begin >? logger.SlowThreshold (cfg L)) eqn:Hgt;
    destruct (logger.SlowThreshold (cfg L) =? 0) eqn:Hz;
    destruct (rows =? -1) eqn:Hrows;
    (destruct err as [e|];
     [destruct (errors_Is e ErrRecordNotFound) eqn:His;
      destruct (logger.IgnoreRecordNotFoundError (cfg L)) eqn:Hig|]);
    run_steps; rewrite Logf_sent; reflexivity.
Qed.

(** [Trace] on an adapter whose logger is nil: the callback runs, then
    the nil logger is used. *)
Lemma Trace_run_nil (rt : runtime) (l : nat) (L : Logger)
    (ctx : Context) (begin : Z) (fc : callback) (err : option error)
    (w : world) :
  heap w !! l = Some L ->
  log L = None ->
  Trace rt l ctx begin fc err w = (ran_fc w, Panic).
Proof.
  intros Hl Hs.
  assert (Hl' : heap (ran_fc w) !! l = Some L) by exact Hl.
  destruct (fc (invoked w)) as [sql rows] eqn:Hfc.
  unfold Trace.
  destruct (time_Since (now rt) begin >? logger.SlowThreshold (cfg L)) eqn:Hgt;
    destruct (logger.SlowThreshold (cfg L) =? 0) eqn:Hz;
    destruct (rows =? -1) eqn:Hrows;
    (destruct err as [e|];
     [destruct (errors_Is e ErrRecordNotFound) eqn:His;
      destruct (logger.IgnoreRecordNotFoundError (cfg L)) eqn:Hig|]);
    run_steps; reflexivity.
Qed.

Lemma Info_run (l : nat) (L : Logger) (s : nat) (ctx : Context)
    (msg : string) (data : list value) (w : world) :
  heap w !! l = Some L ->
  log L = Some s ->
  Info l ctx msg data w =
  (sent w s {| c_level := InfoLevel; c_ctx := ctx; c_fields := ∅;
               c_format := msg; c_args := data |}, Ok tt).
Proof. intros Hl Hs. unfold Info, Infof. run_steps. apply Logf_sent. Qed.

Lemma Warn_run (l : nat) (L : Logger) (s : nat) (ctx : Context)
    (msg : string) (data : list value) (w : world) :
  heap w !! l = Some L ->
  log L = Some s ->
  Warn l ctx msg data w =
  (sent w s {| c_level := WarnLevel; c_ctx := ctx; c_fields := ∅;
               c_format := msg; c_args := data |}, Ok tt).
Proof. intros Hl Hs. unfold Warn, Warnf. run_steps. apply Logf_sent. Qed.

Lemma Error_run (l : nat) (L : Logger) (s : nat) (ctx : Context)
    (msg : string) (data : list value) (w : world) :
  heap w !! l = Some L ->
  log L = Some s ->
  Error l ctx msg data w =
  (sent w s {| c_level := ErrorLevel; c_ctx := ctx; c_fields := ∅;
               c_format := msg; c_args := data |}, Ok tt).
Proof. intros Hl Hs. unfold Error, Errorf. run_steps. apply Logf_sent. Qed.

Lemma LogMode_run (l : nat) (L : Logger) (level : logger.level) (w : world) :
  heap w !! l = Some L ->
  LogMode l level w =
  (allocated w {| log := log L; cfg := set_LogLevel (cfg L) level |},
   Ok (fresh (dom (heap w)))).
Proof. intros Hl. unfold LogMode. run_steps. apply alloc_allocated. Qed.

Lemma fresh_ne (w : world) (l : nat) (L : Logger) :
  heap w !! l = Some L -> fresh (dom (heap w)) <> l.
Proof. intros Hl Heq. rewrite <- Heq, heap_fresh in Hl. discriminate. Qed.

Lemma trace_call_level (rt : runtime) (L : Logger) (ctx : Context)
    (begin : Z) (r : string * Z) (err : option error) :
  c_level (trace_call rt L ctx begin r err) =
  if error_case L err then ErrorLevel
  else if slow_case L (time_Since (now rt) begin) then WarnLevel
  else DebugLevel.
Proof.
  unfold trace_call.
  destruct (error_case L err); [reflexivity|].
  destruct (slow_case L (time_Since (now rt) begin)); reflexivity.
Qed.

Lemma error_case_true (L : Logger) (err : option error) :
  error_case L err = true <->
  exists e, err = Some e /\
    (errors_Is e ErrRecordNotFound = false \/
     logger.IgnoreRecordNotFoundError (cfg L) = false).
Proof.
  unfold error_case. destruct err as [e|].
  - rewrite orb_true_iff, !negb_true_iff. split.
    + intros H. exists e. split; [reflexivity | exact H].
    + intros (e' & [= <-] & H). exact H.
  - split; [discriminate | intros (e & [=] & _)].
Qed.

Lemma error_case_false (L : Logger) (err : option error) :
  (forall e, err = Some e ->
     errors_Is e ErrRecordNotFound = true /\
     logger.IgnoreRecordNotFoundError (cfg L) = true) ->
  error_case L err = false.
Proof.
  intros H. unfold error_case. destruct err as [e|]; [|reflexivity].
  destruct (H e eq_refl) as [-> ->]. reflexivity.
Qed.

Lemma slow_case_true (L : Logger) (elapsed : Duration) :
  slow_case L elapsed = true <->
  logger.SlowThreshold (cfg L) <> 0 /\ logger.SlowThreshold (cfg L) < elapsed.
Proof.
  unfold slow_case.
  rewrite andb_true_iff, negb_true_iff, Z.gtb_ltb, Z.ltb_lt, Z.eqb_neq.
  tauto.
Qed.

(** [errors.Is] finds the sentinel under any number of wrappers, and in
    no error made by [errors.New]. *)
Lemma errors_Is_sentinel : errors_Is ErrRecordNotFound ErrRecordNotFound = true.
Proof. reflexivity. Qed.

Lemma errors_Is_wrapped (msg : string) (e : error) :
  errors_Is e ErrRecordNotFound = true ->
  errors_Is (wrapError msg e) ErrRecordNotFound = true.
Proof. intros H. cbn [errors_Is error_eqb orb]. exact H. Qed.

Lemma errors_Is_errorString (s : string) :
  errors_Is (errorString s) ErrRecordNotFound = false.
Proof. reflexivity. Qed.

(** On a nil receiver [Trace] panics: at once when [err] is nil, because
    the second condition reads [l.cfg]; after the callback when [err] is
    an error other than the sentinel, because the first condition is then
    settled without reading [l]. *)
Lemma Trace_nil_receiver (rt : runtime) (l : nat) (ctx : Context)
    (begin : Z) (fc : callback) (w : world) :
  heap w !! l = None ->
  Trace rt l ctx begin fc None w = (w, Panic) /\
  forall e, errors_Is e ErrRecordNotFound = false ->
    Trace rt l ctx begin fc (Some e) w = (ran_fc w, Panic).
Proof.
  intros Hl. split.
  - unfold Trace. run_steps. reflexivity.
  - intros e He.
    assert (Hl' : heap (ran_fc w) !! l = None) by exact Hl.
    unfold Trace. run_steps.
    destruct (fc (invoked w)) as [sql rows].
    destruct (rows =? -1); run_steps; reflexivity.
Qed.

(** ** The cases the specification lists, run *)

Example run_normal :
  map c_level
    (received
       (fst (Trace (sample_rt (5 * Millisecond)) 1 0%nat 0 sample_fc None
               sample_world)) 7) = [DebugLevel].
Proof. vm_compute. reflexivity. Qed.

Example run_slow :
  map (fun c => (c_level c, c_fields c !! "slowLog", message c))
    (received
       (fst (Trace (sample_rt (150 * Millisecond)) 1 0%nat 0 sample_fc None
               sample_world)) 7) =
  [(WarnLevel, Some (VString "SLOW SQL >= 100ms"),
    "[150.000ms] [rows:3] SELECT * FROM users")].
Proof. vm_compute. reflexivity. Qed.

Example run_error :
  map c_level
    (received
       (fst (Trace (sample_rt (150 * Millisecond)) 1 0%nat 0 sample_fc
               (Some (errorString "syntax error")) sample_world)) 7) =
  [ErrorLevel].
Proof. vm_compute. reflexivity. Qed.

Example run_not_found_ignored :
  map c_level
    (received
       (fst (Trace (sample_rt (5 * Millisecond)) 1 0%nat 0 sample_fc
               (Some (wrapError "find user: record not found"
                        ErrRecordNotFound)) sample_world)) 7) =
  [DebugLevel].
Proof. vm_compute. reflexivity. Qed.

Example run_not_found_reported :
  map c_level
    (received
       (fst (Trace (sample_rt (5 * Millisecond)) 1 0%nat 0
               (fun _ => ("SELECT 1", -1)) (Some ErrRecordNotFound)
               {| heap := {[ 1%nat := {| log := Some 7%nat;
                                         cfg := logger.zero |} ]};
                  sinks := ∅; invoked := 0 |})) 7) =
  [ErrorLevel].
Proof. vm_compute. reflexivity. Qed.

Example run_durations :
  map Duration_String
    [0; 1; 1500; 100 * Millisecond; 90 * Second; - (3600 * Second + 1)] =
  ["0s"; "1ns"; "1.5" ++ micro ++ "s"; "100ms"; "1m30s";
   "-1h0m0.000000001s"].
Proof. vm_compute. reflexivity. Qed.

Example run_floats :
  map (fun d => FormatFloat_f 3 (milliseconds d))
    [0; 1500; 62500; 187500; 1234567; -100] =
  ["0.000"; "0.002"; "0.062"; "0.188"; "1.235"; "-0.000"].
Proof. vm_compute. reflexivity. Qed.

(* ===================================================================== *)
(** * Trace: which of the three cases *)
(* ===================================================================== *)

(** C1. On an adapter with a logger, [Trace] sends exactly one call, and
    that call is at error level if and only if [err] is not nil and
    either [errors.Is(err, gorm.ErrRecordNotFound)] is false or
    [IgnoreRecordNotFoundError] is false.  The error-level call carries the
    fields [file] (the caller's position) and [error] (the error itself).
    In particular, with the sentinel for [err] and the flag set, the call
    is not at error level but at warning or debug level. *)
Theorem Trace_error_bucket (rt : runtime) (l : nat) (L : Logger) (s : nat)
    (ctx : Context) (begin : Z) (fc : callback) (err : option error)
    (w : world) :
  heap w !! l = Some L ->
  log L = Some s ->
  exists c,
    emits (Trace rt l ctx begin fc err) w s c /\
    (c_level c = ErrorLevel <->
     exists e, err = Some e /\
       (errors_Is e ErrRecordNotFound = false \/
        logger.IgnoreRecordNotFoundError (cfg L) = false)) /\
    (c_level c = ErrorLevel ->
     c_fields c =
       <["file" := VString (FileWithLineNum rt)]>
         {[ ErrorKey := value_of_error err ]}) /\
    (err = Some ErrRecordNotFound ->
     logger.IgnoreRecordNotFoundError (cfg L) = true ->
     c_level c <> ErrorLevel /\
     (c_level c = WarnLevel \/ c_level c = DebugLevel)).
Proof.
  intros Hl Hs.
  exists (trace_call rt L ctx begin (fc (invoked w)) err).
  split; [apply emits_sent_ran_fc, (Trace_run _ _ _ _ _ _ _ _ _ Hl Hs)|].
  rewrite trace_call_level, <- error_case_true.
  split; [|split].
  - destruct (error_case L err); [tauto|].
    destruct (slow_case L _); split; discriminate.
  - unfold trace_call.
    destruct (error_case L err); [reflexivity|].
    destruct (slow_case L _); discriminate.
  - intros -> Hig. unfold error_case. rewrite Hig.
    cbn [errors_Is error_eqb orb negb].
    destruct (slow_case L _); (split; [discriminate|]);
      [left | right]; reflexivity.
Qed.

(** The sentinel with the flag set, 5ms after the start, under a 100ms
    threshold. *)
Lemma Trace_error_bucket_witness :
  exists c,
    emits (Trace (sample_rt (5 * Millisecond)) 1 0%nat 0 sample_fc
             (Some ErrRecordNotFound)) sample_world 7 c /\
    c_level c = DebugLevel.
Proof.
  destruct (Trace_error_bucket (sample_rt (5 * Millisecond)) 1 sample_adapter
              7 0%nat 0 sample_fc (Some ErrRecordNotFound) sample_world
              eq_refl eq_refl)
    as (c & Hc & _ & _ & Hsentinel).
  exists c. split; [exact Hc|].
  destruct (Hsentinel eq_refl eq_refl) as [_ [Hw | Hd]]; [|exact Hd].
  exfalso.
  assert (Hc' := emits_sent_ran_fc _ _ _ _
                   (Trace_run (sample_rt (5 * Millisecond)) 1 sample_adapter
                      7 0%nat 0 sample_fc (Some ErrRecordNotFound)
                      sample_world eq_refl eq_refl)).
  rewrite (emits_inj _ _ _ _ _ Hc Hc') in Hw. discriminate Hw.
Defined.

(** C2. When the first case does not apply ([err] is nil, or it is the
    sentinel and the flag is set), the one call [Trace] sends is at warning
    level if and only if [SlowThreshold] is not zero and the elapsed time
    is greater than it; that call carries the fields [file] and [slowLog],
    the latter reading [SLOW SQL >= ] followed by the threshold as
    [Duration.String()] prints it.  Otherwise the call is at debug level
    and [file] is its only field. *)
Theorem Trace_slow_or_normal_bucket (rt : runtime) (l : nat) (L : Logger)
    (s : nat) (ctx : Context) (begin : Z) (fc : callback)
    (err : option error) (w : world) :
  heap w !! l = Some L ->
  log L = Some s ->
  (forall e, err = Some e ->
     errors_Is e ErrRecordNotFound = true /\
     logger.IgnoreRecordNotFoundError (cfg L) = true) ->
  exists c,
    emits (Trace rt l ctx begin fc err) w s c /\
    (c_level c = WarnLevel <->
     logger.SlowThreshold (cfg L) <> 0 /\
     logger.SlowThreshold (cfg L) < time_Since (now rt) begin) /\
    (c_level c = WarnLevel ->
     c_fields c =
       <["file" := VString (FileWithLineNum rt)]>
         {[ "slowLog" :=
              VString ("SLOW SQL >= " ++
                       Duration_String (logger.SlowThreshold (cfg L))) ]}) /\
    (c_level c <> WarnLevel ->
     c_level c = DebugLevel /\
     c_fields c = {[ "file" := VString (FileWithLineNum rt) ]}).
Proof.
  intros Hl Hs Hno.
  exists (trace_call rt L ctx begin (fc (invoked w)) err).
  split; [apply emits_sent_ran_fc, (Trace_run _ _ _ _ _ _ _ _ _ Hl Hs)|].
  rewrite <- slow_case_true.
  unfold trace_call. rewrite (error_case_false L err Hno).
  destruct (slow_case L (time_Since (now rt) begin)); cbn [c_level c_fields].
  - split; [tauto|]. split; [reflexivity|].
    intros Hne. contradiction Hne. reflexivity.
  - split; [split; discriminate|]. split; [discriminate|].
    intros _. split; reflexivity.
Qed.

(** No error, 150ms elapsed, a threshold of 100ms: a warning whose
    [slowLog] field reads [SLOW SQL >= 100ms]. *)
Lemma Trace_slow_or_normal_bucket_witness :
  exists c,
    emits (Trace (sample_rt (150 * Millisecond)) 1 0%nat 0 sample_fc None)
      sample_world 7 c /\
    c_level c = WarnLevel /\
    c_fields c !! "slowLog" = Some (VString "SLOW SQL >= 100ms").
Proof.
  destruct (Trace_slow_or_normal_bucket (sample_rt (150 * Millisecond)) 1
              sample_adapter 7 0%nat 0 sample_fc None sample_world
              eq_refl eq_refl)
    as (c & Hc & Hlevel & Hfields & _).
  - intros e He. discriminate He.
  - assert (Hwarn : c_level c = WarnLevel).
    { apply Hlevel. split; [discriminate | reflexivity]. }
    exists c. split; [exact Hc|]. split; [exact Hwarn|].
    rewrite (Hfields Hwarn). reflexivity.
Defined.

(** C10. The second case asks for a threshold other than zero, not for a
    positive one: under a negative threshold, when the first case does not
    apply and the elapsed time is positive, the call is a warning. *)
Theorem Trace_negative_threshold_is_slow (rt : runtime) (l : nat)
    (L : Logger) (s : nat) (ctx : Context) (begin : Z) (fc : callback)
    (err : option error) (w : world) :
  heap w !! l = Some L ->
  log L = Some s ->
  (forall e, err = Some e ->
     errors_Is e ErrRecordNotFound = true /\
     logger.IgnoreRecordNotFoundError (cfg L) = true) ->
  logger.SlowThreshold (cfg L) < 0 ->
  0 < time_Since (now rt) begin ->
  exists c,
    emits (Trace rt l ctx begin fc err) w s c /\
    c_level c = WarnLevel.
Proof.
  intros Hl Hs Hno Hneg Hpos.
  exists (trace_call rt L ctx begin (fc (invoked w)) err).
  split; [apply emits_sent_ran_fc, (Trace_run _ _ _ _ _ _ _ _ _ Hl Hs)|].
  rewrite trace_call_level, (error_case_false L err Hno).
  assert (Hslow : slow_case L (time_Since (now rt) begin) = true).
  { apply slow_case_true. lia. }
  rewrite Hslow. reflexivity.
Qed.

(** A threshold of -100ms and a statement that took 1ns. *)
Lemma Trace_negative_threshold_is_slow_witness :
  exists c,
    emits (Trace (sample_rt 1) 1 0%nat 0 sample_fc None) negative_world 7 c /\
    c_level c = WarnLevel.
Proof.
  apply (Trace_negative_threshold_is_slow (sample_rt 1) 1
           {| log := Some 7%nat; cfg := negative_cfg |} 7 0%nat 0 sample_fc
           None negative_world eq_refl eq_refl).
  - intros e He. discriminate He.
  - reflexivity.
  - reflexivity.
Defined.

(* ===================================================================== *)
(** * Trace: the callback and the message *)
(* ===================================================================== *)

(** C4. [Trace] on an adapter runs the callback exactly once, whichever
    case applies, and also when the adapter has no logger to send to. *)
Theorem Trace_invokes_callback_once (rt : runtime) (l : nat) (L : Logger)
    (ctx : Context) (begin : Z) (fc : callback) (err : option error)
    (w : world) :
  heap w !! l = Some L ->
  invoked (fst (Trace rt l ctx begin fc err w)) = S (invoked w).
Proof.
  intros Hl. destruct (log L) as [s|] eqn:Hs.
  - rewrite (Trace_run _ _ _ _ _ _ _ _ _ Hl Hs). reflexivity.
  - rewrite (Trace_run_nil _ _ _ _ _ _ _ _ Hl Hs). reflexivity.
Qed.

Lemma Trace_invokes_callback_once_witness :
  invoked (fst (Trace (sample_rt (150 * Millisecond)) 1 0%nat 0 sample_fc
                  (Some (errorString "syntax error")) sample_world)) = 1%nat.
Proof.
  apply (Trace_invokes_callback_once (sample_rt (150 * Millisecond)) 1
           sample_adapter 0%nat 0 sample_fc
           (Some (errorString "syntax error")) sample_world eq_refl).
Defined.

(** C5. In all three cases the message of the call is an opening bracket,
    the elapsed milliseconds printed by [%.3f], [ms] [rows:], the row
    count, a closing bracket and a space, and the statement.  The row count
    is [-] when the callback returned -1 and the decimal numeral of what it
    returned otherwise; the milliseconds are a decimal numeral with exactly
    three digits after the point. *)
Theorem Trace_message_body (rt : runtime) (l : nat) (L : Logger) (s : nat)
    (ctx : Context) (begin : Z) (fc : callback) (err : option error)
    (w : world) :
  heap w !! l = Some L ->
  log L = Some s ->
  exists c,
    emits (Trace rt l ctx begin fc err) w s c /\
    message c =
      "[" ++ FormatFloat_f 3 (milliseconds (time_Since (now rt) begin)) ++
      "ms] [rows:" ++
      (if snd (fc (invoked w)) =? -1 then "-"
       else dec (snd (fc (invoked w)))) ++
      "] " ++ fst (fc (invoked w)) /\
    has_decimals 3
      (FormatFloat_f 3 (milliseconds (time_Since (now rt) begin))).
Proof.
  intros Hl Hs.
  exists (trace_call rt L ctx begin (fc (invoked w)) err).
  split; [apply emits_sent_ran_fc, (Trace_run _ _ _ _ _ _ _ _ _ Hl Hs)|].
  split.
  - unfold message, trace_call.
    destruct (error_case L err);
      [|destruct (slow_case L (time_Since (now rt) begin))];
      cbn [c_format c_args]; apply Sprintf_trace.
  - apply (FormatFloat_f_3_decimals 99), milliseconds_below.
    apply (time_Since_range (now rt) begin).
Qed.

(** 1234567ns and three rows. *)
Lemma Trace_message_body_witness :
  exists c,
    emits (Trace (sample_rt 1234567) 1 0%nat 0 sample_fc None)
      sample_world 7 c /\
    message c = "[1.235ms] [rows:3] SELECT * FROM users".
Proof.
  destruct (Trace_message_body (sample_rt 1234567) 1 sample_adapter 7 0%nat 0
              sample_fc None sample_world eq_refl eq_refl)
    as (c & Hc & Hmsg & _).
  exists c. split; [exact Hc|]. rewrite Hmsg. vm_compute. reflexivity.
Defined.

(* ===================================================================== *)
(** * Info, Warn, Error *)
(* ===================================================================== *)

(** C6. On an adapter with a logger, whatever its configuration, each of
    [Info], [Warn] and [Error] sends exactly one call, at info, warning
    and error level respectively, with the context, the format and the
    operands it was given and no fields. *)
Theorem Info_Warn_Error_forward_once (l : nat) (L : Logger) (s : nat)
    (ctx : Context) (msg : string) (data : list value) (w : world) :
  heap w !! l = Some L ->
  log L = Some s ->
  emits (Info l ctx msg data) w s
    {| c_level := InfoLevel; c_ctx := ctx; c_fields := ∅;
       c_format := msg; c_args := data |} /\
  emits (Warn l ctx msg data) w s
    {| c_level := WarnLevel; c_ctx := ctx; c_fields := ∅;
       c_format := msg; c_args := data |} /\
  emits (Error l ctx msg data) w s
    {| c_level := ErrorLevel; c_ctx := ctx; c_fields := ∅;
       c_format := msg; c_args := data |}.
Proof.
  intros Hl Hs. repeat split; apply emits_sent.
  - apply (Info_run _ _ _ _ _ _ _ Hl Hs).
  - apply (Warn_run _ _ _ _ _ _ _ Hl Hs).
  - apply (Error_run _ _ _ _ _ _ _ Hl Hs).
Qed.

(** An adapter configured [Silent] forwards all the same. *)
Lemma Info_Warn_Error_forward_once_witness :
  logger.LogLevel (cfg sample_adapter) = logger.Silent /\
  emits (Info 1 0%nat "hello %s" [VString "world"]) sample_world 7
    {| c_level := InfoLevel; c_ctx := 0%nat; c_fields := ∅;
       c_format := "hello %s"; c_args := [VString "world"] |}.
Proof.
  split; [reflexivity|].
  apply (Info_Warn_Error_forward_once 1 sample_adapter 7 0%nat "hello %s"
           [VString "world"] sample_world eq_refl eq_refl).
Defined.

(* ===================================================================== *)
(** * LogMode *)
(* ===================================================================== *)

(** C3. [LogMode] on an adapter returns a new adapter, at an address of
    its own, whose [LogLevel] is the level asked for and whose other
    configuration fields are the receiver's.  The receiver and every other
    adapter are as they were, and storing anything at the returned address
    afterwards still leaves the receiver as it was. *)
Theorem LogMode_copies_config (l : nat) (L : Logger) (level : logger.level)
    (w : world) :
  heap w !! l = Some L ->
  exists l' w' L',
    LogMode l level w = (w', Ok l') /\
    heap w' !! l' = Some L' /\
    logger.LogLevel (cfg L') = level /\
    logger.SlowThreshold (cfg L') = logger.SlowThreshold (cfg L) /\
    logger.Colorful (cfg L') = logger.Colorful (cfg L) /\
    logger.IgnoreRecordNotFoundError (cfg L') =
      logger.IgnoreRecordNotFoundError (cfg L) /\
    logger.ParameterizedQueries (cfg L') =
      logger.ParameterizedQueries (cfg L) /\
    l' <> l /\
    heap w' !! l = Some L /\
    (forall a, a <> l' -> heap w' !! a = heap w !! a) /\
    (forall v : Logger, <[l' := v]> (heap w') !! l = Some L).
Proof.
  intros Hl.
  pose proof (fresh_ne w l L Hl) as Hne.
  exists (fresh (dom (heap w))),
    (allocated w {| log := log L;
                    cfg := set_LogLevel (cfg L) level |}),
    {| log := log L; cfg := set_LogLevel (cfg L) level |}.
  split; [apply LogMode_run, Hl|].
  split; [apply lookup_insert_eq|].
  do 5 (split; [reflexivity|]).
  split; [exact Hne|].
  assert (Hkeep : forall a, a <> fresh (dom (heap w)) ->
            heap (allocated w {| log := log L;
                                 cfg := set_LogLevel (cfg L) level |})
              !! a = heap w !! a).
  { intros a Ha. unfold allocated; cbn [heap].
    apply lookup_insert_ne. congruence. }
  split; [rewrite Hkeep by congruence; exact Hl|].
  split; [exact Hkeep|].
  intros v. rewrite lookup_insert_ne by exact Hne.
  rewrite Hkeep by congruence. exact Hl.
Qed.

(** From the [Silent] sample adapter to level [Info]. *)
Lemma LogMode_copies_config_witness :
  exists l' w' L',
    LogMode 1 logger.Info sample_world = (w', Ok l') /\
    heap w' !! l' = Some L' /\
    logger.LogLevel (cfg L') = logger.Info /\
    heap w' !! 1%nat = Some sample_adapter /\
    logger.LogLevel (cfg sample_adapter) = logger.Silent.
Proof.
  destruct (LogMode_copies_config 1 sample_adapter logger.Info sample_world
              eq_refl)
    as (l' & w' & L' & Hrun & Hnew & Hlevel & _ & _ & _ & _ & _ & Hold & _).
  exists l', w', L'. repeat split; assumption || reflexivity.
Defined.

Lemma trace_call_ext (rt : runtime) (L L' : Logger) (ctx : Context)
    (begin : Z) (r : string * Z) (err : option error) :
  logger.IgnoreRecordNotFoundError (cfg L') =
    logger.IgnoreRecordNotFoundError (cfg L) ->
  logger.SlowThreshold (cfg L') = logger.SlowThreshold (cfg L) ->
  trace_call rt L' ctx begin r err = trace_call rt L ctx begin r err.
Proof.
  intros Hig Hslow. unfold trace_call, error_case, slow_case.
  rewrite Hig, Hslow. reflexivity.
Qed.

(** [Trace] reads its receiver for the logger and two configuration
    fields only. *)
Lemma Trace_ext (rt : runtime) (l l' : nat) (L L' : Logger) (ctx : Context)
    (begin : Z) (fc : callback) (err : option error) (w : world) :
  heap w !! l = Some L ->
  heap w !! l' = Some L' ->
  log L' = log L ->
  logger.IgnoreRecordNotFoundError (cfg L') =
    logger.IgnoreRecordNotFoundError (cfg L) ->
  logger.SlowThreshold (cfg L') = logger.SlowThreshold (cfg L) ->
  Trace rt l' ctx begin fc err w = Trace rt l ctx begin fc err w.
Proof.
  intros Hl Hl' Hlog Hig Hslow. destruct (log L) as [s|] eqn:Hs.
  - rewrite (Trace_run _ _ _ _ _ _ _ _ _ Hl Hs).
    rewrite (Trace_run _ _ _ _ _ _ _ _ _ Hl' Hlog).
    rewrite (trace_call_ext _ _ _ _ _ _ _ Hig Hslow). reflexivity.
  - rewrite (Trace_run_nil _ _ _ _ _ _ _ _ Hl Hs).
    rewrite (Trace_run_nil _ _ _ _ _ _ _ _ Hl' Hlog). reflexivity.
Qed.

(** [Info], [Warn] and [Error] read their receiver for the logger only. *)
Lemma Info_ext (l l' : nat) (L L' : Logger) (ctx : Context) (msg : string)
    (data : list value) (w : world) :
  heap w !! l = Some L ->
  heap w !! l' = Some L' ->
  log L' = log L ->
  Info l' ctx msg data w = Info l ctx msg data w.
Proof.
  intros Hl Hl' Hlog. unfold Info.
  rewrite (bind_load _ _ _ _ Hl), (bind_load _ _ _ _ Hl'), Hlog. reflexivity.
Qed.

Lemma Warn_ext (l l' : nat) (L L' : Logger) (ctx : Context) (msg : string)
    (data : list value) (w : world) :
  heap w !! l = Some L ->
  heap w !! l' = Some L' ->
  log L' = log L ->
  Warn l' ctx msg data w = Warn l ctx msg data w.
Proof.
  intros Hl Hl' Hlog. unfold Warn.
  rewrite (bind_load _ _ _ _ Hl), (bind_load _ _ _ _ Hl'), Hlog. reflexivity.
Qed.

Lemma Error_ext (l l' : nat) (L L' : Logger) (ctx : Context) (msg : string)
    (data : list value) (w : world) :
  heap w !! l = Some L ->
  heap w !! l' = Some L' ->
  log L' = log L ->
  Error l' ctx msg data w = Error l ctx msg data w.
Proof.
  intros Hl Hl' Hlog. unfold Error.
  rewrite (bind_load _ _ _ _ Hl), (bind_load _ _ _ _ Hl'), Hlog. reflexivity.
Qed.

(** C8. The adapter [LogMode] returns has the receiver's logger pointer.
    In every later world that still holds both adapters, [Info], [Warn],
    [Error] and [Trace] on the new adapter do what they do on the
    receiver: the same calls reach the same logger. *)
Theorem LogMode_shares_logger (l : nat) (L : Logger) (level : logger.level)
    (w : world) :
  heap w !! l = Some L ->
  exists l' w' L',
    LogMode l level w = (w', Ok l') /\
    heap w' !! l' = Some L' /\
    heap w' !! l = Some L /\
    log L' = log L /\
    forall w2 : world,
      heap w2 !! l = Some L ->
      heap w2 !! l' = Some L' ->
      (forall ctx msg data,
         Info l' ctx msg data w2 = Info l ctx msg data w2 /\
         Warn l' ctx msg data w2 = Warn l ctx msg data w2 /\
         Error l' ctx msg data w2 = Error l ctx msg data w2) /\
      (forall rt ctx begin fc err,
         Trace rt l' ctx begin fc err w2 = Trace rt l ctx begin fc err w2).
Proof.
  intros Hl.
  pose proof (fresh_ne w l L Hl) as Hne.
  set (L' := {| log := log L; cfg := set_LogLevel (cfg L) level |}).
  exists (fresh (dom (heap w))), (allocated w L'), L'.
  split; [apply LogMode_run, Hl|].
  split; [apply lookup_insert_eq|].
  split.
  { unfold allocated; cbn [heap].
    rewrite lookup_insert_ne by exact Hne. exact Hl. }
  split; [reflexivity|].
  intros w2 H2 H2'. split.
  - intros ctx msg data. split; [|split].
    + apply (Info_ext _ _ _ _ _ _ _ _ H2 H2' eq_refl).
    + apply (Warn_ext _ _ _ _ _ _ _ _ H2 H2' eq_refl).
    + apply (Error_ext _ _ _ _ _ _ _ _ H2 H2' eq_refl).
  - intros rt ctx begin fc err.
    apply (Trace_ext _ _ _ _ _ _ _ _ _ _ H2 H2' eq_refl eq_refl eq_refl).
Qed.

(** The receiver and the adapter derived from it both send to logger 7. *)
Lemma LogMode_shares_logger_witness :
  exists l' w' L',
    LogMode 1 logger.Info sample_world = (w', Ok l') /\
    heap w' !! l' = Some L' /\
    log L' = Some 7%nat /\
    Info l' 0%nat "ready" [] w' = Info 1 0%nat "ready" [] w'.
Proof.
  destruct (LogMode_shares_logger 1 sample_adapter logger.Info sample_world
              eq_refl)
    as (l' & w' & L' & Hrun & Hnew & Hold & Hlog & Hsame).
  exists l', w', L'.
  split; [exact Hrun|]. split; [exact Hnew|]. split; [exact Hlog|].
  apply (Hsame w' Hold Hnew).
Defined.

(* ===================================================================== *)
(** * New *)
(* ===================================================================== *)

Lemma apply_options_app (opts1 opts2 : list Option) (opt : options)
    (w : world) :
  apply_options (opts1 ++ opts2)%list opt w =
  (opt' <- apply_options opts1 opt ;; apply_options opts2 opt') w.
Proof.
  revert opt. induction opts1 as [|o opts1 IH]; intros opt.
  - reflexivity.
  - destruct o as [f|]; [apply IH | reflexivity].
Qed.

(** Options that are functions all run, and touch nothing but the
    [options] value. *)
Lemma apply_options_total (opts : list Option) (opt : options) (w : world) :
  Forall (fun o : Option => o <> None) opts ->
  exists opt', apply_options opts opt w = (w, Ok opt').
Proof.
  intros Hall. revert opt.
  induction Hall as [|o opts Ho _ IH]; intros opt.
  - exists opt. reflexivity.
  - destruct o as [f|]; [apply IH | contradiction Ho; reflexivity].
Qed.

(** A nil option stops [New] with a panic. *)
Lemma apply_options_nil (opts : list Option) (opt : options) (w : world) :
  In None opts -> apply_options opts opt w = (w, Panic).
Proof.
  revert opt. induction opts as [|o opts IH]; intros opt Hin.
  - destruct Hin.
  - destruct o as [f|]; [|reflexivity].
    destruct Hin as [Hin | Hin]; [discriminate Hin | apply IH, Hin].
Qed.

(** The package's own options: for each field, the last one that sets it
    decides. *)
Lemma apply_options_built (es : list option_expr) (opt : options)
    (w : world) :
  apply_options (map build es) opt w =
  (w, Ok {| opt_log := default (opt_log opt) (last_WithLogger es);
            opt_cfg := default (opt_cfg opt) (last_WithConfig es) |}).
Proof.
  revert opt. induction es as [|e es IH]; intros opt.
  - destruct opt; reflexivity.
  - destruct e as [p|c]; cbn [map build apply_options WithLogger WithConfig];
      rewrite IH; cbn [last_WithLogger last_WithConfig opt_log opt_cfg];
      destruct (last_WithLogger es), (last_WithConfig es); reflexivity.
Qed.

(** [New] once the options have run. *)
Lemma New_run (opts : list Option) (opt : options) (w : world) :
  apply_options opts zero_options w = (w, Ok opt) ->
  New opts w =
  (allocated w {| log := Some (default StandardLogger (opt_log opt));
                  cfg := opt_cfg opt |},
   Ok (fresh (dom (heap w)))).
Proof.
  intros Hrun. unfold New, bind. rewrite Hrun.
  destruct (opt_log opt) as [s|] eqn:Hlog; cbn [opt_log opt_cfg default];
    rewrite ?Hlog; apply alloc_allocated.
Qed.

(** C7. [New] runs its options one after the other, each on the [options]
    value the one before left.  So for options written with [WithLogger]
    and [WithConfig], the adapter has the logger of the last [WithLogger]
    and the configuration of the last [WithConfig] (the zero configuration
    if there is none); and if there is no [WithLogger], or the last one
    was handed nil, the adapter's logger is [logrus.StandardLogger()]. *)
Theorem New_applies_options_in_order :
  (forall (opts1 opts2 : list Option) (opt : options) (w : world),
     apply_options (opts1 ++ opts2)%list opt w =
     (opt' <- apply_options opts1 opt ;; apply_options opts2 opt') w) /\
  (forall (es : list option_expr) (w : world),
     New (map build es) w =
     (allocated w
        {| log := Some match last_WithLogger es with
                       | Some (Some s) => s
                       | _ => StandardLogger
                       end;
           cfg := default logger.zero (last_WithConfig es) |},
      Ok (fresh (dom (heap w))))).
Proof.
  split; [exact apply_options_app|].
  intros es w.
  rewrite (New_run _ _ _ (apply_options_built es zero_options w)).
  cbn [opt_log opt_cfg zero_options].
  destruct (last_WithLogger es) as [[s|]|]; reflexivity.
Qed.

(** C9. Whatever the options do, as long as each is a function, [New]
    returns an adapter whose logger is not nil: it is the logger the
    options left, or [logrus.StandardLogger()] when they left nil, as
    [WithLogger(nil)] does.  In every later world that still holds this
    adapter, [Info], [Warn], [Error] and [Trace] return without a panic,
    and so does [LogMode], whose adapter has the same logger. *)
Theorem New_sink_never_nil (opts : list Option) (w : world) :
  Forall (fun o : Option => o <> None) opts ->
  exists opt l w' L s,
    apply_options opts zero_options w = (w, Ok opt) /\
    New opts w = (w', Ok l) /\
    heap w' !! l = Some L /\
    log L = Some s /\
    s = default StandardLogger (opt_log opt) /\
    forall w2 : world,
      heap w2 !! l = Some L ->
      (forall ctx msg data,
         snd (Info l ctx msg data w2) = Ok tt /\
         snd (Warn l ctx msg data w2) = Ok tt /\
         snd (Error l ctx msg data w2) = Ok tt) /\
      (forall rt ctx begin fc err,
         snd (Trace rt l ctx begin fc err w2) = Ok tt) /\
      (forall level, exists l2 w3 L2,
         LogMode l level w2 = (w3, Ok l2) /\
         heap w3 !! l2 = Some L2 /\
         log L2 = Some s).
Proof.
  intros Hall.
  destruct (apply_options_total opts zero_options w Hall) as [opt Hopt].
  set (s := default StandardLogger (opt_log opt)).
  set (L := {| log := Some s; cfg := opt_cfg opt |}).
  exists opt, (fresh (dom (heap w))), (allocated w L), L, s.
  split; [exact Hopt|].
  split; [apply New_run, Hopt|].
  split; [apply lookup_insert_eq|].
  split; [reflexivity|]. split; [reflexivity|].
  intros w2 H2. split; [|split].
  - intros ctx msg data. split; [|split].
    + rewrite (Info_run _ L s _ _ _ _ H2 eq_refl). reflexivity.
    + rewrite (Warn_run _ L s _ _ _ _ H2 eq_refl). reflexivity.
    + rewrite (Error_run _ L s _ _ _ _ H2 eq_refl). reflexivity.
  - intros rt ctx begin fc err.
    rewrite (Trace_run _ _ L s _ _ _ _ _ H2 eq_refl). reflexivity.
  - intros level.
    exists (fresh (dom (heap w2))),
      (allocated w2 {| log := log L;
                       cfg := set_LogLevel (cfg L) level |}),
      {| log := log L; cfg := set_LogLevel (cfg L) level |}.
    split; [apply LogMode_run, H2|].
    split; [apply lookup_insert_eq | reflexivity].
Qed.

(** [New(WithLogger(nil))]. *)
Lemma New_sink_never_nil_witness :
  exists l w' L,
    New [WithLogger None] sample_world = (w', Ok l) /\
    heap w' !! l = Some L /\
    log L = Some StandardLogger.
Proof.
  destruct (New_sink_never_nil [WithLogger None] sample_world)
    as (opt & l & w' & L & s & Hopt & Hnew & Hl & Hlog & Hs & _).
  - repeat constructor; discriminate.
  - exists l, w', L. split; [exact Hnew|]. split; [exact Hl|].
    rewrite Hlog, Hs. injection Hopt as <-. reflexivity.
Defined.

(* ===================================================================== *)
(** * Further properties: what the configuration does not change *)
(* ===================================================================== *)

(** X1. [Trace] reads [SlowThreshold] and [IgnoreRecordNotFoundError] and
    nothing else of the configuration: give the adapter any other
    [LogLevel], [Colorful] and [ParameterizedQueries], [Silent] included,
    and the same call is sent. *)
Theorem Trace_ignores_LogLevel (rt : runtime) (l : nat) (L : Logger)
    (s : nat) (ctx : Context) (begin : Z) (fc : callback)
    (err : option error) (w : world) (c' : logger.Config) :
  heap w !! l = Some L ->
  log L = Some s ->
  logger.SlowThreshold c' = logger.SlowThreshold (cfg L) ->
  logger.IgnoreRecordNotFoundError c' =
    logger.IgnoreRecordNotFoundError (cfg L) ->
  exists c,
    emits (Trace rt l ctx begin fc err) w s c /\
    emits (Trace rt l ctx begin fc err) (reconfigured w l c') s c.
Proof.
  intros Hl Hs Hslow Hig.
  exists (trace_call rt L ctx begin (fc (invoked w)) err).
  split; [apply emits_sent_ran_fc, (Trace_run _ _ _ _ _ _ _ _ _ Hl Hs)|].
  assert (Hl' : heap (reconfigured w l c') !! l =
                Some {| log := log L; cfg := c' |}).
  { unfold reconfigured; cbn [heap]. rewrite lookup_alter_eq, Hl. reflexivity. }
  apply emits_sent_ran_fc.
  rewrite (Trace_run _ _ _ s _ _ _ _ _ Hl' Hs).
  rewrite (trace_call_ext rt L {| log := log L; cfg := c' |});
    [reflexivity | |];
    cbn [cfg]; assumption.
Qed.

(** The sample adapter, [Silent], against the same adapter at [Info] and
    in colour. *)
Lemma Trace_ignores_LogLevel_witness :
  exists c,
    emits (Trace (sample_rt (150 * Millisecond)) 1 0%nat 0 sample_fc None)
      sample_world 7 c /\
    emits (Trace (sample_rt (150 * Millisecond)) 1 0%nat 0 sample_fc None)
      (reconfigured sample_world 1 loud_cfg) 7 c.
Proof.
  apply (Trace_ignores_LogLevel (sample_rt (150 * Millisecond)) 1
           sample_adapter 7 0%nat 0 sample_fc None sample_world loud_cfg
           eq_refl eq_refl eq_refl eq_refl).
Defined.

(* ===================================================================== *)
(** * Further properties: nil pointers *)
(* ===================================================================== *)

(** X2. On an adapter whose logger is nil, as the zero value [Logger{}]
    has it, [Info], [Warn] and [Error] panic and leave the world as it
    was.  [Trace] panics too, but only after it has run the callback once;
    it sends nothing.  [LogMode] returns, and its adapter has a nil logger
    as well. *)
Theorem nil_logger_panics (l : nat) (L : Logger) (ctx : Context)
    (msg : string) (data : list value) (rt : runtime) (begin : Z)
    (fc : callback) (err : option error) (level : logger.level) (w : world) :
  heap w !! l = Some L ->
  log L = None ->
  Info l ctx msg data w = (w, Panic) /\
  Warn l ctx msg data w = (w, Panic) /\
  Error l ctx msg data w = (w, Panic) /\
  (exists w',
     Trace rt l ctx begin fc err w = (w', Panic) /\
     heap w' = heap w /\ sinks w' = sinks w /\
     invoked w' = S (invoked w)) /\
  (exists l' w' L',
     LogMode l level w = (w', Ok l') /\
     heap w' !! l' = Some L' /\ log L' = None).
Proof.
  intros Hl Hs.
  split; [unfold Info; run_steps; reflexivity|].
  split; [unfold Warn; run_steps; reflexivity|].
  split; [unfold Error; run_steps; reflexivity|].
  split.
  - exists (ran_fc w). split; [apply (Trace_run_nil _ _ _ _ _ _ _ _ Hl Hs)|].
    repeat split.
  - exists (fresh (dom (heap w))),
      (allocated w {| log := log L; cfg := set_LogLevel (cfg L) level |}),
      {| log := log L; cfg := set_LogLevel (cfg L) level |}.
    split; [apply LogMode_run, Hl|].
    split; [apply lookup_insert_eq | exact Hs].
Qed.

Lemma nil_logger_panics_witness :
  Info 1 0%nat "hello" [] zero_world = (zero_world, Panic) /\
  exists w',
    Trace (sample_rt 5) 1 0%nat 0 sample_fc None zero_world = (w', Panic) /\
    invoked w' = 1%nat.
Proof.
  destruct (nil_logger_panics 1 zero_adapter 0%nat "hello" [] (sample_rt 5) 0
              sample_fc None logger.Info zero_world eq_refl eq_refl)
    as (Hinfo & _ & _ & (w' & Htrace & _ & _ & Hinv) & _).
  split; [exact Hinfo|]. exists w'. split; [exact Htrace | exact Hinv].
Defined.

(** X3. Through a nil receiver every method panics.  [Info], [Warn],
    [Error] and [LogMode] leave the world as it was.  So does [Trace] when
    [err] is nil or [errors.Is] finds the sentinel in it, because the
    conditions then read [l.cfg]; for any other error the first condition
    holds without reading [l], and the callback runs once before the
    panic. *)
Theorem nil_receiver_panics (l : nat) (ctx : Context) (msg : string)
    (data : list value) (level : logger.level) (rt : runtime) (begin : Z)
    (fc : callback) (w : world) :
  heap w !! l = None ->
  Info l ctx msg data w = (w, Panic) /\
  Warn l ctx msg data w = (w, Panic) /\
  Error l ctx msg data w = (w, Panic) /\
  LogMode l level w = (w, Panic) /\
  Trace rt l ctx begin fc None w = (w, Panic) /\
  (forall e, errors_Is e ErrRecordNotFound = true ->
     Trace rt l ctx begin fc (Some e) w = (w, Panic)) /\
  (forall e, errors_Is e ErrRecordNotFound = false ->
     exists w',
       Trace rt l ctx begin fc (Some e) w = (w', Panic) /\
       heap w' = heap w /\ sinks w' = sinks w /\
       invoked w' = S (invoked w)).
Proof.
  intros Hl.
  destruct (Trace_nil_receiver rt l ctx begin fc w Hl) as [Hnone Hsome].
  split; [unfold Info; run_steps; reflexivity|].
  split; [unfold Warn; run_steps; reflexivity|].
  split; [unfold Error; run_steps; reflexivity|].
  split; [unfold LogMode; run_steps; reflexivity|].
  split; [exact Hnone|].
  split.
  - intros e He. unfold Trace. run_steps. reflexivity.
  - intros e He. exists (ran_fc w). split; [apply Hsome, He|]. repeat split.
Qed.

(** Address 2 holds no adapter in the sample world. *)
Lemma nil_receiver_panics_witness :
  Trace (sample_rt 5) 2 0%nat 0 sample_fc None sample_world =
    (sample_world, Panic) /\
  exists w',
    Trace (sample_rt 5) 2 0%nat 0 sample_fc
      (Some (errorString "syntax error")) sample_world = (w', Panic) /\
    invoked w' = 1%nat.
Proof.
  destruct (nil_receiver_panics 2 0%nat "hello" [] logger.Info (sample_rt 5)
              0 sample_fc sample_world eq_refl)
    as (_ & _ & _ & _ & Hnone & _ & Hsome).
  split; [exact Hnone|].
  destruct (Hsome (errorString "syntax error") eq_refl)
    as (w' & Htrace & _ & _ & Hinv).
  exists w'. split; [exact Htrace | exact Hinv].
Defined.

(** X4. A nil option anywhere in the sequence makes [New] panic, whatever
    the options before and after it are; no adapter is built and the world
    is as it was. *)
Theorem New_nil_option_panics (opts : list Option) (w : world) :
  In None opts -> New opts w = (w, Panic).
Proof.
  intros Hin. unfold New, bind.
  rewrite (apply_options_nil opts zero_options w Hin). reflexivity.
Qed.

Lemma New_nil_option_panics_witness :
  New [WithLogger (Some 7%nat); None; WithConfig sample_cfg] sample_world =
  (sample_world, Panic).
Proof.
  apply (New_nil_option_panics
           [WithLogger (Some 7%nat); None; WithConfig sample_cfg]
           sample_world).
  right. left. reflexivity.
Defined.

(* ===================================================================== *)
(** * Further properties: New and LogMode among other adapters *)
(* ===================================================================== *)

(** Options change the [options] value they are handed and nothing else. *)
Lemma apply_options_world (opts : list Option) (opt : options)
    (w w' : world) (r : outcome options) :
  apply_options opts opt w = (w', r) -> w' = w.
Proof.
  revert opt. induction opts as [|o opts IH]; intros opt H.
  - injection H as <- _. reflexivity.
  - destruct o as [f|]; [apply (IH _ H)|].
    injection H as <- _. reflexivity.
Qed.

(** A [New] that returns has put one adapter at the fresh address. *)
Lemma New_inv (opts : list Option) (w w' : world) (l : nat) :
  New opts w = (w', Ok l) ->
  exists v, w' = allocated w v /\ l = fresh (dom (heap w)).
Proof.
  intros H.
  destruct (apply_options opts zero_options w) as [w1 [opt|]] eqn:Hrun.
  - pose proof (apply_options_world _ _ _ _ _ Hrun) as ->.
    rewrite (New_run _ _ _ Hrun) in H. injection H as <- <-.
    eexists. split; reflexivity.
  - unfold New, bind in H. rewrite Hrun in H. discriminate H.
Qed.

(** X5. When [New] returns, its adapter sits at an address that held no
    adapter before; every other adapter, what each logger has received and
    the callback count are as they were.  An adapter built by a later [New]
    gets another address and leaves this one as it is. *)
Theorem New_frame (opts : list Option) (w w' : world) (l : nat) :
  New opts w = (w', Ok l) ->
  heap w !! l = None /\
  (forall a, a <> l -> heap w' !! a = heap w !! a) /\
  sinks w' = sinks w /\
  invoked w' = invoked w /\
  (forall opts2 w2 l2,
     New opts2 w' = (w2, Ok l2) ->
     l2 <> l /\ heap w2 !! l = heap w' !! l).
Proof.
  intros H. destruct (New_inv _ _ _ _ H) as (v & -> & ->).
  split; [apply heap_fresh|].
  split.
  { intros a Ha. unfold allocated; cbn [heap].
    apply lookup_insert_ne. congruence. }
  split; [reflexivity|]. split; [reflexivity|].
  intros opts2 w2 l2 H2. destruct (New_inv _ _ _ _ H2) as (v2 & -> & ->).
  assert (Hne : fresh (dom (heap (allocated w v))) <> fresh (dom (heap w))).
  { apply (fresh_ne (allocated w v) _ v). apply lookup_insert_eq. }
  split; [exact Hne|].
  unfold allocated at 1; cbn [heap]. apply lookup_insert_ne. exact Hne.
Qed.

Lemma New_frame_witness :
  exists w' l,
    New [WithLogger (Some 7%nat)] sample_world = (w', Ok l) /\
    heap sample_world !! l = None /\
    heap w' !! 1%nat = Some sample_adapter.
Proof.
  exists (allocated sample_world {| log := Some 7%nat; cfg := logger.zero |}),
    (fresh (dom (heap sample_world))).
  destruct (New_frame [WithLogger (Some 7%nat)] sample_world _ _ eq_refl)
    as (Hnew & Hkeep & _).
  split; [reflexivity|]. split; [exact Hnew|].
  rewrite Hkeep; [reflexivity | discriminate].
Defined.

Lemma bind_ext {A B} (m : M A) (k1 k2 : A -> M B) (w : world) :
  (forall a w', k1 a w' = k2 a w') -> bind m k1 w = bind m k2 w.
Proof.
  intros H. unfold bind. destruct (m w) as [w' [a|]]; [apply H | reflexivity].
Qed.

Lemma apply_options_swap (opts1 opts2 : list Option) (p : option nat)
    (c : logger.Config) (opt : options) (w : world) :
  apply_options (opts1 ++ WithLogger p :: WithConfig c :: opts2)%list opt w =
  apply_options (opts1 ++ WithConfig c :: WithLogger p :: opts2)%list opt w.
Proof.
  rewrite !apply_options_app. apply bind_ext.
  intros opt' w'. reflexivity.
Qed.

(** X6. [WithLogger] and [WithConfig] set different fields, so two of them
    side by side may be swapped, whatever options stand before and after:
    [New] does the same. *)
Theorem New_options_commute (opts1 opts2 : list Option) (p : option nat)
    (c : logger.Config) (w : world) :
  New (opts1 ++ WithLogger p :: WithConfig c :: opts2)%list w =
  New (opts1 ++ WithConfig c :: WithLogger p :: opts2)%list w.
Proof.
  unfold New, bind. rewrite apply_options_swap. reflexivity.
Qed.

Lemma no_WithConfig (es : list option_expr) :
  Forall is_WithLogger es -> last_WithConfig es = None.
Proof.
  induction 1 as [|e es He _ IH]; [reflexivity|].
  cbn [last_WithConfig]. rewrite IH.
  destruct e; [reflexivity | contradiction He].
Qed.

(** X7. An adapter built without [WithConfig] has the zero configuration:
    a threshold of zero and the ignore flag unset.  So its [Trace] never
    sends a warning, however long the statement took, and sends every
    error at error level, the record-not-found sentinel included. *)
Theorem New_without_config_traces (es : list option_expr) (w : world)
    (rt : runtime) (ctx : Context) (begin : Z) (fc : callback)
    (err : option error) :
  Forall is_WithLogger es ->
  exists l w' s c,
    New (map build es) w = (w', Ok l) /\
    emits (Trace rt l ctx begin fc err) w' s c /\
    c_level c = match err with
                | Some _ => ErrorLevel
                | None => DebugLevel
                end.
Proof.
  intros Hes.
  pose proof (apply_options_built es zero_options w) as Hrun.
  rewrite (no_WithConfig es Hes) in Hrun.
  cbn [default opt_cfg zero_options] in Hrun.
  pose proof (New_run _ _ _ Hrun) as Hnew. cbn [opt_log opt_cfg] in Hnew.
  set (s := default StandardLogger (default None (last_WithLogger es))) in *.
  set (L := {| log := Some s; cfg := logger.zero |}) in *.
  assert (Hl : heap (allocated w L) !! fresh (dom (heap w)) = Some L)
    by apply lookup_insert_eq.
  exists (fresh (dom (heap w))), (allocated w L), s,
    (trace_call rt L ctx begin (fc (invoked (allocated w L))) err).
  split; [exact Hnew|].
  split; [apply emits_sent_ran_fc, (Trace_run _ _ _ _ _ _ _ _ _ Hl eq_refl)|].
  rewrite trace_call_level. unfold error_case, slow_case, L; cbn [cfg].
  cbn [logger.IgnoreRecordNotFoundError logger.SlowThreshold logger.zero].
  destruct err as [e|].
  - rewrite orb_true_r. reflexivity.
  - rewrite andb_false_r. reflexivity.
Qed.

(** [New()] and a statement that took an hour and found no record. *)
Lemma New_without_config_traces_witness :
  exists l w' s c,
    New [] sample_world = (w', Ok l) /\
    emits (Trace (sample_rt (3600 * Second)) l 0%nat 0 sample_fc
             (Some ErrRecordNotFound)) w' s c /\
    c_level c = ErrorLevel.
Proof.
  apply (New_without_config_traces [] sample_world (sample_rt (3600 * Second))
           0%nat 0 sample_fc (Some ErrRecordNotFound)).
  constructor.
Defined.

Lemma set_LogLevel_same (c : logger.Config) :
  set_LogLevel c (logger.LogLevel c) = c.
Proof. destruct c; reflexivity. Qed.

(** X8. [LogMode] on an adapter that [LogMode] returned: the last level
    asked for is the level, the logger and the rest of the configuration
    are still the first adapter's, and asking for the level the adapter
    already has gives an equal copy.  The three adapters have three
    addresses, the first two are as they were, and nothing was sent to a
    logger and no callback run. *)
Theorem LogMode_twice (l : nat) (L : Logger) (a b : logger.level) (w : world) :
  heap w !! l = Some L ->
  exists l1 w1 l2 w2,
    LogMode l a w = (w1, Ok l1) /\
    LogMode l1 b w1 = (w2, Ok l2) /\
    heap w2 !! l2 = Some {| log := log L; cfg := set_LogLevel (cfg L) b |} /\
    heap w2 !! l1 = Some {| log := log L; cfg := set_LogLevel (cfg L) a |} /\
    heap w2 !! l = Some L /\
    l1 <> l /\ l2 <> l /\ l2 <> l1 /\
    sinks w2 = sinks w /\
    invoked w2 = invoked w /\
    (logger.LogLevel (cfg L) = b -> heap w2 !! l2 = Some L).
Proof.
  intros Hl.
  set (L1 := {| log := log L; cfg := set_LogLevel (cfg L) a |}).
  set (L2 := {| log := log L; cfg := set_LogLevel (cfg L) b |}).
  set (w1 := allocated w L1).
  assert (Hl1 : heap w1 !! fresh (dom (heap w)) = Some L1)
    by apply lookup_insert_eq.
  pose proof (fresh_ne w l L Hl) as Hne1.
  assert (Hl' : heap w1 !! l = Some L).
  { unfold w1, allocated; cbn [heap].
    rewrite lookup_insert_ne by exact Hne1. exact Hl. }
  pose proof (fresh_ne w1 l L Hl') as Hne2.
  pose proof (fresh_ne w1 _ L1 Hl1) as Hne21.
  assert (H2 : heap (allocated w1 L2) !! fresh (dom (heap w1)) = Some L2)
    by apply lookup_insert_eq.
  exists (fresh (dom (heap w))), w1, (fresh (dom (heap w1))), (allocated w1 L2).
  split; [apply LogMode_run, Hl|].
  split; [apply (LogMode_run _ L1 b w1 Hl1)|].
  split; [exact H2|].
  split.
  { unfold allocated at 1; cbn [heap].
    rewrite lookup_insert_ne by exact Hne21. exact Hl1. }
  split.
  { unfold allocated at 1; cbn [heap].
    rewrite lookup_insert_ne by exact Hne2. exact Hl'. }
  do 3 (split; [assumption|]).
  split; [reflexivity|]. split; [reflexivity|].
  intros <-. rewrite H2. unfold L2. rewrite set_LogLevel_same.
  destruct L; reflexivity.
Qed.

(** The [Silent] sample adapter to [Info] and back to [Silent]. *)
Lemma LogMode_twice_witness :
  exists l1 w1 l2 w2,
    LogMode 1 logger.Info sample_world = (w1, Ok l1) /\
    LogMode l1 logger.Silent w1 = (w2, Ok l2) /\
    heap w2 !! l2 = Some sample_adapter /\
    l2 <> 1%nat.
Proof.
  destruct (LogMode_twice 1 sample_adapter logger.Info logger.Silent
              sample_world eq_refl)
    as (l1 & w1 & l2 & w2 & H1 & H2 & _ & _ & _ & _ & Hne & _ & _ & _ & Hsame).
  exists l1, w1, l2, w2.
  split; [exact H1|]. split; [exact H2|].
  split; [apply Hsame; reflexivity | exact Hne].
Defined.

(* ===================================================================== *)
(** * Further properties: which errors count as record-not-found *)
(* ===================================================================== *)

Lemma errors_Is_wrapped_chain (msgs : list string) (e : error) :
  errors_Is e ErrRecordNotFound = true ->
  errors_Is (wrapped msgs e) ErrRecordNotFound = true.
Proof.
  intros H. induction msgs as [|m msgs IH]; [exact H|].
  apply errors_Is_wrapped, IH.
Qed.

Lemma errors_Is_other_chain (msgs : list string) (text : string) :
  errors_Is (wrapped msgs (errorString text)) ErrRecordNotFound = false.
Proof.
  induction msgs as [|m msgs IH]; [reflexivity|]. exact IH.
Qed.

(** X9. [Trace] tests its error with [errors.Is], which looks through
    wrappers: the sentinel wrapped any number of times is ignored like the
    sentinel itself.  With the flag set, the call is not at error level and
    the error is not among its fields. *)
Theorem Trace_wrapped_sentinel_ignored (rt : runtime) (l : nat) (L : Logger)
    (s : nat) (ctx : Context) (begin : Z) (fc : callback)
    (msgs : list string) (w : world) :
  heap w !! l = Some L ->
  log L = Some s ->
  logger.IgnoreRecordNotFoundError (cfg L) = true ->
  exists c,
    emits (Trace rt l ctx begin fc (Some (wrapped msgs ErrRecordNotFound)))
      w s c /\
    c_level c <> ErrorLevel /\
    c_fields c !! ErrorKey = None.
Proof.
  intros Hl Hs Hig.
  exists (trace_call rt L ctx begin (fc (invoked w))
            (Some (wrapped msgs ErrRecordNotFound))).
  split; [apply emits_sent_ran_fc, (Trace_run _ _ _ _ _ _ _ _ _ Hl Hs)|].
  unfold trace_call, error_case.
  rewrite (errors_Is_wrapped_chain msgs _ errors_Is_sentinel), Hig.
  cbn [negb orb].
  destruct (slow_case L (time_Since (now rt) begin)); cbn [c_level c_fields];
    (split; [discriminate|]).
  - rewrite lookup_insert_ne by discriminate.
    apply lookup_singleton_ne. discriminate.
  - apply lookup_singleton_ne. discriminate.
Qed.

(** The sentinel under two wrappers. *)
Lemma Trace_wrapped_sentinel_ignored_witness :
  exists c,
    emits (Trace (sample_rt (5 * Millisecond)) 1 0%nat 0 sample_fc
             (Some (wrapError "load profile"
                      (wrapError "find user" ErrRecordNotFound))))
      sample_world 7 c /\
    c_level c <> ErrorLevel /\
    c_fields c !! ErrorKey = None.
Proof.
  apply (Trace_wrapped_sentinel_ignored (sample_rt (5 * Millisecond)) 1
           sample_adapter 7 0%nat 0 sample_fc ["load profile"; "find user"]
           sample_world eq_refl eq_refl eq_refl).
Defined.

(** X10. The sentinel is told by identity, not by its text: an error made
    by [errors.New], wrapped or not, is sent at error level under the
    [error] key whatever the ignore flag is, also when its text is that of
    the sentinel. *)
Theorem Trace_other_error_reported (rt : runtime) (l : nat) (L : Logger)
    (s : nat) (ctx : Context) (begin : Z) (fc : callback)
    (msgs : list string) (text : string) (w : world) :
  heap w !! l = Some L ->
  log L = Some s ->
  exists c,
    emits (Trace rt l ctx begin fc (Some (wrapped msgs (errorString text))))
      w s c /\
    c_level c = ErrorLevel /\
    c_fields c !! ErrorKey =
      Some (VError (wrapped msgs (errorString text))).
Proof.
  intros Hl Hs.
  exists (trace_call rt L ctx begin (fc (invoked w))
            (Some (wrapped msgs (errorString text)))).
  split; [apply emits_sent_ran_fc, (Trace_run _ _ _ _ _ _ _ _ _ Hl Hs)|].
  unfold trace_call, error_case.
  rewrite errors_Is_other_chain. cbn [negb orb c_level c_fields].
  split; [reflexivity|].
  rewrite lookup_insert_ne by discriminate.
  apply lookup_singleton_eq.
Qed.

(** An error of the sentinel's text on the sample adapter, whose flag is
    set. *)
Lemma Trace_other_error_reported_witness :
  logger.IgnoreRecordNotFoundError (cfg sample_adapter) = true /\
  exists c,
    emits (Trace (sample_rt (5 * Millisecond)) 1 0%nat 0 sample_fc
             (Some (errorString "record not found"))) sample_world 7 c /\
    c_level c = ErrorLevel.
Proof.
  split; [reflexivity|].
  destruct (Trace_other_error_reported (sample_rt (5 * Millisecond)) 1
              sample_adapter 7 0%nat 0 sample_fc [] "record not found"
              sample_world eq_refl eq_refl)
    as (c & Hc & Hlevel & _).
  exists c. split; [exact Hc | exact Hlevel].
Defined.

(* ===================================================================== *)
(** * Further properties: the shape of a trace call *)
(* ===================================================================== *)

(** X11. Whatever case applies, the call [Trace] sends has the context
    [Trace] was given, the caller's position under [file], a level among
    error, warning and debug, and one fixed format: the statement is the
    third operand, never part of the format. *)
Theorem Trace_call_shape (rt : runtime) (l : nat) (L : Logger) (s : nat)
    (ctx : Context) (begin : Z) (fc : callback) (err : option error)
    (w : world) :
  heap w !! l = Some L ->
  log L = Some s ->
  exists c,
    emits (Trace rt l ctx begin fc err) w s c /\
    c_ctx c = ctx /\
    c_fields c !! "file" = Some (VString (FileWithLineNum rt)) /\
    (c_level c = ErrorLevel \/ c_level c = WarnLevel \/
     c_level c = DebugLevel) /\
    c_format c = "[%.3fms] [rows:%v] %s" /\
    exists ms rows,
      c_args c = [VFloat64 ms; rows; VString (fst (fc (invoked w)))].
Proof.
  intros Hl Hs.
  exists (trace_call rt L ctx begin (fc (invoked w)) err).
  split; [apply emits_sent_ran_fc, (Trace_run _ _ _ _ _ _ _ _ _ Hl Hs)|].
  unfold trace_call.
  destruct (error_case L err);
    [|destruct (slow_case L (time_Since (now rt) begin))];
    cbn [c_ctx c_fields c_level c_format c_args];
    (split; [reflexivity|]);
    (split; [first [apply lookup_insert_eq | apply lookup_singleton_eq]|]);
    (split; [tauto|]);
    (split; [reflexivity|]);
    eexists _, _; reflexivity.
Qed.

(** A statement with a percent sign in it. *)
Lemma Trace_call_shape_witness :
  exists c,
    emits (Trace (sample_rt 5) 1 3%nat 0
             (fun _ => ("SELECT '100%s'", 1)) None) sample_world 7 c /\
    c_ctx c = 3%nat /\
    c_format c = "[%.3fms] [rows:%v] %s" /\
    message c = "[0.000ms] [rows:1] SELECT '100%s'".
Proof.
  destruct (Trace_call_shape (sample_rt 5) 1 sample_adapter 7 3%nat 0
              (fun _ => ("SELECT '100%s'", 1)) None sample_world
              eq_refl eq_refl)
    as (c & Hc & Hctx & _ & _ & Hfmt & (ms & rows & Hargs)).
  exists c. split; [exact Hc|]. split; [exact Hctx|]. split; [exact Hfmt|].
  assert (Hc' := emits_sent_ran_fc _ _ _ _
                   (Trace_run (sample_rt 5) 1 sample_adapter 7 3%nat 0
                      (fun _ => ("SELECT '100%s'", 1)) None sample_world
                      eq_refl eq_refl)).
  rewrite (emits_inj _ _ _ _ _ Hc Hc'). vm_compute. reflexivity.
Defined.

(* ===================================================================== *)
(** * Further properties: a start time in the future *)
(* ===================================================================== *)

Lemma append_assoc (a b c : string) : (a ++ b) ++ c = a ++ (b ++ c).
Proof.
  induction a as [|x a IH]; [reflexivity|].
  change (String x ((a ++ b) ++ c) = String x (a ++ (b ++ c))).
  now rewrite IH.
Qed.

(** Rounding keeps the sign it is given. *)
Lemma binary_round_aux_sign (sx : bool) (mx ex : Z) (lx : location) (B : Z) :
  below B (binary_round_aux 53 1024 sx mx ex lx) ->
  negative (binary_round_aux 53 1024 sx mx ex lx) = sx.
Proof.
  unfold binary_round_aux.
  destruct (shr_fexp 53 1024 mx ex lx) as [mrs' e'].
  destruct (shr_fexp 53 1024 _ e' loc_Exact) as [mrs'' e''].
  destruct (shr_m mrs'') as [|p|p]; [reflexivity| |contradiction].
  destruct (e'' <=? 1024 - 53); [reflexivity | contradiction].
Qed.

Lemma float64_of_int64_sign (n : Z) :
  - 2 ^ 63 <= n <= 2 ^ 63 - 1 ->
  negative (float64_of_int64 n) = (n <? 0).
Proof.
  intros Hn. pose proof (float64_of_int64_below n Hn) as Hb.
  unfold float64_of_int64, binary_normalize in *.
  destruct n as [|p|p]; [reflexivity| |];
    unfold binary_round in *;
    destruct (shl_align p 0 _) as [mz ez];
    apply (binary_round_aux_sign _ _ _ _ _ Hb).
Qed.

Lemma milliseconds_sign (d : Z) :
  - 2 ^ 63 <= d <= 2 ^ 63 - 1 ->
  negative (milliseconds d) = (d <? 0).
Proof.
  intros Hd.
  pose proof (milliseconds_below d Hd) as Hb.
  pose proof (float64_of_int64_sign d Hd) as Hs.
  pose proof (float64_of_int64_below d Hd) as Hx.
  unfold milliseconds, float64_div in *.
  let y := eval vm_compute in (float64_of_int64 1000000) in
  change (float64_of_int64 1000000) with y in *.
  destruct (float64_of_int64 d) as [s| | |s m e]; try contradiction.
  - cbn [SFdiv negative] in *. rewrite xorb_false_r. exact Hs.
  - cbn [negative] in Hs. subst s. unfold SFdiv in *.
    destruct (SFdiv_core_binary 53 1024 (Z.pos m) e _ _) as [[mz ez] lz].
    rewrite (binary_round_aux_sign _ _ _ _ _ Hb). apply xorb_false_r.
Qed.

(** A finite float64 under [%.3f]: its sign, an integer part, three
    digits. *)
Lemma FormatFloat_f_3_sign (B : Z) (f : float64) :
  below B f ->
  exists ip frac,
    FormatFloat_f 3 f = sign (negative f) ++ dec ip ++ "." ++ frac /\
    0 <= ip /\
    String.length frac = 3%nat /\
    all_digits frac = true.
Proof.
  destruct f as [s|s| |s m e]; try contradiction; intros _.
  - exists (0 / 1000), (pad 3 (0 mod 1000)).
    split; [reflexivity|]. split; [apply Z.div_pos; lia|].
    apply pad_3_digits, Z.mod_pos_bound. lia.
  - pose proof (scaled_nonneg 3 m e) as Hn.
    exists (scaled 3 (Z.pos m) e / 1000),
      (pad 3 (scaled 3 (Z.pos m) e mod 1000)).
    split; [reflexivity|]. split; [apply Z.div_pos; lia|].
    apply pad_3_digits, Z.mod_pos_bound. lia.
Qed.

(** X12. When [begin] is later than the clock, so that the elapsed time is
    negative, the milliseconds in the message carry a minus sign, also in
    front of [0.000]; otherwise they carry none.  After the sign come an
    integer part and exactly three digits. *)
Theorem Trace_message_sign (rt : runtime) (l : nat) (L : Logger) (s : nat)
    (ctx : Context) (begin : Z) (fc : callback) (err : option error)
    (w : world) :
  heap w !! l = Some L ->
  log L = Some s ->
  exists c ip frac,
    emits (Trace rt l ctx begin fc err) w s c /\
    message c =
      "[" ++ sign (time_Since (now rt) begin <? 0) ++ dec ip ++ "." ++ frac ++
      "ms] [rows:" ++
      (if snd (fc (invoked w)) =? -1 then "-"
       else dec (snd (fc (invoked w)))) ++
      "] " ++ fst (fc (invoked w)) /\
    0 <= ip /\
    String.length frac = 3%nat /\
    all_digits frac = true.
Proof.
  intros Hl Hs.
  pose proof (time_Since_range (now rt) begin) as Hr.
  destruct (FormatFloat_f_3_sign 99 _
              (milliseconds_below _ Hr))
    as (ip & frac & Hf & Hip & Hlen & Hdig).
  rewrite (milliseconds_sign _ Hr) in Hf.
  exists (trace_call rt L ctx begin (fc (invoked w)) err), ip, frac.
  split; [apply emits_sent_ran_fc, (Trace_run _ _ _ _ _ _ _ _ _ Hl Hs)|].
  split; [|repeat split; assumption].
  assert (Hmsg : message (trace_call rt L ctx begin (fc (invoked w)) err) =
                 Sprintf "[%.3fms] [rows:%v] %s"
                   [VFloat64 (milliseconds (time_Since (now rt) begin));
                    rows_operand (snd (fc (invoked w)));
                    VString (fst (fc (invoked w)))]).
  { unfold message, trace_call.
    destruct (error_case L err);
      [|destruct (slow_case L (time_Since (now rt) begin))]; reflexivity. }
  rewrite Hmsg, Sprintf_trace, Hf, !append_assoc. reflexivity.
Qed.

(** A statement begun 100ns after the clock's reading. *)
Lemma Trace_message_sign_witness :
  exists c,
    emits (Trace (sample_rt 0) 1 0%nat 100 sample_fc None) sample_world 7 c /\
    message c = "[-0.000ms] [rows:3] SELECT * FROM users".
Proof.
  destruct (Trace_message_sign (sample_rt 0) 1 sample_adapter 7 0%nat 100
              sample_fc None sample_world eq_refl eq_refl)
    as (c & ip & frac & Hc & _).
  exists c. split; [exact Hc|].
  assert (Hc' := emits_sent_ran_fc _ _ _ _
                   (Trace_run (sample_rt 0) 1 sample_adapter 7 0%nat 100
                      sample_fc None sample_world eq_refl eq_refl)).
  rewrite (emits_inj _ _ _ _ _ Hc Hc'). vm_compute. reflexivity.
Defined.
